(** * SonicShare: the peer-to-peer transfer engine, embedded in Rocq

A shallow embedding of the JavaScript sources of the transfer engine:
- [DataView]  : the big-endian reads and writes of the JS [DataView]
                and [ArrayBuffer.slice], on byte lists;
- [Packet]    : web/js/packet.js ([buildVideoPacket], [parsePacket], ...);
- [Crypto]    : crypto.js ([encryptChunk], [decryptChunk]) over an
                abstract AES-GCM;
- [Sender]    : web/js/protocol.js ([trySend], [handleMessage]) and
                web/js/state.js ([resetTransfer]);
- [Receiver]  : web/js/receiver.js (class [SonicReceiver]);
- [Legacy]    : the earlier protocol script ([onData] with the reorder
                buffer, [onResume]) and the first monolithic script
                ([trySend] with the key guard).

Bytes are integers in [0, 256); buffers are lists of bytes; JS [Map]s
are [gmap Z _]; an exception that the source lets escape is [None]. *)

From Stdlib Require Import ZArith List Lia Bool.
From stdpp Require Import base option list gmap numbers strings pretty sorting.
Import ListNotations.

Local Open Scope Z_scope.

(* ===================================================================== *)
(** ** Bytes and the DataView primitives *)
(* ===================================================================== *)

Module DataView.

Definition byte_ok (b : Z) : Prop := 0 <= b < 256.
Definition bytes_ok (l : list Z) : Prop := Forall byte_ok l.

(** [new ArrayBuffer(n)] / [new Uint8Array(n)]: n zero bytes. *)
Definition alloc (n : nat) : list Z := replicate n 0.

(** Big-endian images of a number, after the ToUint8/16/32 conversion that
    the setters apply. *)
Definition be8 (v : Z) : list Z := [v mod 256].
Definition be16 (v : Z) : list Z :=
  let w := v mod 65536 in [w / 256; w mod 256].
Definition be32 (v : Z) : list Z :=
  let w := v mod 4294967296 in
  [w / 16777216; (w / 65536) mod 256; (w / 256) mod 256; w mod 256].

(** Overwrite the head of [buf] with [bs]; running off the end is the
    [RangeError] of the typed-array and DataView setters. *)
Fixpoint overwrite (buf bs : list Z) {struct bs} : option (list Z) :=
  match bs, buf with
  | [], _ => Some buf
  | x :: bs', _ :: buf' => cons x <$> overwrite buf' bs'
  | _ :: _, [] => None
  end.

Fixpoint write (buf : list Z) (off : nat) (bs : list Z) {struct off}
    : option (list Z) :=
  match off, buf with
  | O, _ => overwrite buf bs
  | S k, b :: buf' => cons b <$> write buf' k bs
  | S _, [] => None
  end.

Definition setUint8 (buf : list Z) (off : nat) (v : Z) := write buf off (be8 v).
Definition setUint16 (buf : list Z) (off : nat) (v : Z) := write buf off (be16 v).
Definition setUint32 (buf : list Z) (off : nat) (v : Z) := write buf off (be32 v).

(** The getters; [None] is the [RangeError] of a read past the end. *)
Definition getUint8 (buf : list Z) (off : nat) : option Z := buf !! off.
Definition getUint16 (buf : list Z) (off : nat) : option Z :=
  a ← buf !! off; b ← buf !! S off; Some (a * 256 + b).
Definition getUint32 (buf : list Z) (off : nat) : option Z :=
  a ← buf !! off; b ← buf !! (off + 1)%nat;
  c ← buf !! (off + 2)%nat; d ← buf !! (off + 3)%nat;
  Some (a * 16777216 + b * 65536 + c * 256 + d).

(** [buffer.slice(from, to)], with both ends clamped to the buffer. *)
Definition slice (buf : list Z) (from to : nat) : list Z :=
  take (to - from) (drop from buf).

(** [new Uint8Array(buffer, off, len)]: a view, [RangeError] when it does
    not fit in the buffer. *)
Definition subarray (buf : list Z) (off len : nat) : option (list Z) :=
  if (off + len <=? length buf)%nat then Some (take len (drop off buf))
  else None.

End DataView.

(* ===================================================================== *)
(** ** packet.js *)
(* ===================================================================== *)

Module Packet.
Import DataView.

(** [PacketType] *)
Definition DATA : Z := 1.
Definition ACK : Z := 2.
Definition KEY : Z := 3.
Definition HASH : Z := 4.
Definition START : Z := 5.
Definition END_ : Z := 6.
Definition RESUME : Z := 7.
Definition VIDEO_DATA : Z := 10.
Definition SACK : Z := 11.
Definition FEC : Z := 12.

(** The "simple checksum" loop shared by [buildVideoPacket],
    [onVideoData] and [SonicReceiver.calculateChecksum]:
    [sum = (sum + bytes[i]) & 0xffff] for [i < min(length, 100)]. *)
Definition checksum_step (sum b : Z) : Z := Z.land (sum + b) 65535.
Definition calculateChecksum (data : list Z) : Z :=
  fold_left checksum_step (take (Nat.min (length data) 100) data) 0.

(** The records [parsePacket] returns, one constructor per [type]. *)
Inductive packet : Type :=
| PAck (seq : Z)
| PData (seq : Z) (iv payload : list Z)
| PVideoData (seq size fileOffset : Z) (isLast : bool) (checksum : Z)
             (payload : list Z)
| PSack (cumulativeAck : Z) (ranges : list (Z * Z))
| PFec (group : Z) (payload : list Z)
| POther (type seq : Z).

Definition buildAckPacket (seq : Z) : option (list Z) :=
  b ← setUint8 (alloc 5) 0 ACK;
  setUint32 b 1 seq.

Definition buildDataPacket (seq : Z) (iv payload : list Z) : option (list Z) :=
  let ivLen := length iv in
  let pLen := length payload in
  b ← setUint8 (alloc (1 + 4 + 4 + ivLen + 4 + pLen)) 0 DATA;
  b ← setUint32 b 1 seq;
  b ← setUint32 b 5 (Z.of_nat ivLen);
  b ← write b 9 iv;
  b ← setUint32 b (9 + ivLen) (Z.of_nat pLen);
  write b (9 + ivLen + 4) payload.

Definition buildVideoPacket (seq : Z) (payload : list Z) (isLast : bool)
    (fileOffset : Z) : option (list Z) :=
  let n := length payload in
  b ← setUint8 (alloc (16 + n)) 0 VIDEO_DATA;
  b ← setUint32 b 1 seq;
  b ← setUint32 b 5 (Z.of_nat n);
  (* fileOffset || 0 *)
  b ← setUint32 b 9 (if fileOffset =? 0 then 0 else fileOffset);
  b ← setUint8 b 13 (if isLast then 1 else 0);
  b ← setUint16 b 14 (calculateChecksum payload);
  write b 16 payload.

Definition buildSackPacket (cumulativeAck : Z) (ranges : list (Z * Z))
    : option (list Z) :=
  b ← setUint8 (alloc (1 + 4 + 4 + length ranges * 8)) 0 SACK;
  b ← setUint32 b 1 cumulativeAck;
  b ← setUint32 b 5 (Z.of_nat (length ranges));
  fst <$> fold_left
    (fun acc r =>
       '(b, off) ← acc;
       b ← setUint32 b off (fst r);
       b ← setUint32 b (off + 4) (snd r);
       Some (b, (off + 8)%nat))
    ranges (Some (b, 9%nat)).

(** The [for (i < count)] loop of the SACK branch. *)
Fixpoint parseRanges (buf : list Z) (off : nat) (count : nat)
    : option (list (Z * Z)) :=
  match count with
  | O => Some []
  | S k =>
      s ← getUint32 buf off;
      e ← getUint32 buf (off + 4);
      rest ← parseRanges buf (off + 8) k;
      Some ((s, e) :: rest)
  end.

Definition parsePacket (buffer : list Z) : option packet :=
  type ← getUint8 buffer 0;
  seq ← getUint32 buffer 1;
  if type =? ACK then Some (PAck seq)
  else if type =? DATA then
    ivLength ← getUint32 buffer 5;
    let ivEnd := (9 + Z.to_nat ivLength)%nat in
    let iv := slice buffer 9 ivEnd in
    payloadLength ← getUint32 buffer ivEnd;
    let off := (ivEnd + 4)%nat in
    Some (PData seq iv (slice buffer off (off + Z.to_nat payloadLength)))
  else if type =? VIDEO_DATA then
    size ← getUint32 buffer 5;
    fileOffset ← getUint32 buffer 9;
    last ← getUint8 buffer 13;
    checksum ← getUint16 buffer 14;
    Some (PVideoData seq size fileOffset (last =? 1) checksum
            (slice buffer 16 (16 + Z.to_nat size)))
  else if type =? SACK then
    count ← getUint32 buffer 5;
    ranges ← parseRanges buffer 9 (Z.to_nat count);
    Some (PSack seq ranges)
  else if type =? FEC then
    Some (PFec seq (slice buffer 5 (length buffer)))
  else Some (POther type seq).

(** [buildControlPacket(typeStr, seq = 0)]: [typeMap[typeStr] || 0] is 7
    for ["RESUME"], 6 for ["END"], and writes as 0 for every other
    string. *)
Definition buildControlPacket (typeStr : string) (seq : Z) : option (list Z) :=
  let t := if String.eqb typeStr "RESUME" then RESUME
           else if String.eqb typeStr "END" then END_
           else 0 in
  b ← setUint8 (alloc (1 + 4)) 0 t;
  setUint32 b 1 seq.

(** [buildFecPacket(group, payload)] *)
Definition buildFecPacket (group : Z) (payload : list Z) : option (list Z) :=
  b ← setUint8 (alloc (1 + 4 + length payload)) 0 FEC;
  b ← setUint32 b 1 group;
  write b 5 payload.

End Packet.

(* ===================================================================== *)
(** ** crypto.js *)
(* ===================================================================== *)

Module Crypto.

(** [state.sharedKey]: [null] until a KEY message has been handled, then
    the string ["INSECURE"] (local mode) or the derived AES-GCM key. *)
Inductive sharedKey (key : Type) : Type :=
| KeyNull
| KeyInsecure
| KeyDerived (k : key).
Arguments KeyNull {key}.
Arguments KeyInsecure {key}.
Arguments KeyDerived {key} k.

(** The object [encryptChunk] resolves to ([ivB64] and [dataB64] are the
    base64 texts of the same two values). *)
Record encrypted : Type := { iv : option (list Z); data : list Z }.

Section WithAesGcm.

(** WebCrypto's AES-GCM, [crypto.subtle.encrypt / decrypt] with
    [{name: "AES-GCM", iv}]: a decryption that fails rejects. *)
Context {key : Type}.
Variable gcm_encrypt : key -> list Z -> list Z -> list Z.
Variable gcm_decrypt : key -> list Z -> list Z -> option (list Z).

(** [config.js]: [IS_SECURE = window.isSecureContext]. *)
Variable IS_SECURE : bool.

(** [deriveSharedKey(peerPublicKey)]; [Some k] is the key that the ECDH
    derivation yields, [None] stands for the peer key ["INSECURE"]. *)
Definition deriveSharedKey (peer : option key) : sharedKey key :=
  match IS_SECURE, peer with
  | true, Some k => KeyDerived k
  | _, _ => KeyInsecure
  end.

(** [encryptChunk(buffer)]. The function has ONE parameter; [rnd] is the
    value of [crypto.getRandomValues(new Uint8Array(12))]. [None] is the
    rejection of [crypto.subtle.encrypt] on a [null] key. *)
Definition encryptChunk (sk : sharedKey key) (rnd : list Z)
    (buffer : list Z) : option encrypted :=
  if negb IS_SECURE then Some {| iv := None; data := buffer |}
  else match sk with
       | KeyInsecure => Some {| iv := None; data := buffer |}
       | KeyDerived k =>
           Some {| iv := Some rnd; data := gcm_encrypt k rnd buffer |}
       | KeyNull => None
       end.

(** [decryptChunk(data, iv)] on raw buffers; [iv = None] is a [null]
    or otherwise unusable IV. *)
Definition decryptChunk (sk : sharedKey key) (data : list Z)
    (iv : option (list Z)) : option (list Z) :=
  if negb IS_SECURE then Some data
  else match sk with
       | KeyInsecure => Some data
       | KeyDerived k =>
           match iv with
           | Some ivBuf => gcm_decrypt k ivBuf data
           | None => None
           end
       | KeyNull => None
       end.
End WithAesGcm.

(** The deterministic IV both peers build from a sequence number:
    [customIv = new Uint8Array(12); ivView.setUint32(8, seq, false)]. *)
Definition seqIv (seq : Z) : option (list Z) :=
  DataView.setUint32 (DataView.alloc 12) 8 seq.

End Crypto.

(* ===================================================================== *)
(** ** protocol.js and state.js: the sender *)
(* ===================================================================== *)

Module Sender.
Import Crypto.

(** config.js *)
Definition CHUNK_SIZE : Z := 256 * 1024.
Definition MAX_BUFFER : Z := 4 * 1024 * 1024.

Inductive transferState : Type := IDLE | WAITING | READY.

(** What the send loop observes of an [RTCDataChannel]. *)
Record channel : Type := { isOpen : bool; bufferedAmount : Z }.

(** A frame handed to [send], as the arguments of the
    [buildSonicPacket(seq, chunk, isLast, offset, isEncrypted)] call that
    is to make it. packet.js exports [PacketType], [buildDataPacket],
    [buildAckPacket], [parsePacket], [isBinaryPacket],
    [buildControlPacket], [buildVideoPacket], [buildSackPacket] and
    [buildFecPacket], and no [buildSonicPacket]: the name that
    [const { buildSonicPacket } = await import("./packet.js")] binds is
    [undefined], and the call throws a TypeError. *)
Record sonicPacket : Type := {
  pSeq : Z; pChunk : list Z; pIsLast : bool; pOffset : Z;
  pIsEncrypted : bool
}.

Section WithAesGcm.
Context {key : Type}.
Variable gcm_encrypt : key -> list Z -> list Z -> list Z.
Variable IS_SECURE : bool.

(** The fields of the shared [state] object that the transfer path reads
    or writes. A [File] is its bytes. The timing and metric fields
    ([transferStartTime], [rttSamples], [eta], ...) never feed the send
    path and are left out. *)
Record state : Type := {
  currentFile : option (list Z);
  transferState_ : transferState;
  isTransferring : bool;
  isSending : bool;
  isVideoStream : bool;
  credits : Z;
  dataChannel : option channel;
  dataChannels : list channel;
  activeChannelIndex : nat;
  nextSeq : Z;
  lastAck : Z;
  inflight : gmap Z (list Z);
  fileOffset : Z;
  currentChunkSize : Z;
  totalBytesTransferred : Z;
  dynamicWindowSize : Z;
  sharedKey_ : sharedKey key
}.

(** [new state] literal of state.js. *)
Definition initial : state := {|
  currentFile := None; transferState_ := IDLE; isTransferring := false;
  isSending := false; isVideoStream := false; credits := 0;
  dataChannel := None; dataChannels := []; activeChannelIndex := 0%nat;
  nextSeq := 0; lastAck := -1; inflight := ∅; fileOffset := 0;
  currentChunkSize := 512 * 1024; totalBytesTransferred := 0;
  dynamicWindowSize := 16; sharedKey_ := KeyNull |}.

(** [state.resetTransfer()] *)
Definition resetTransfer (st : state) : state := {|
  currentFile := currentFile st;
  transferState_ := transferState_ st;
  isTransferring := true;
  isSending := isSending st;
  isVideoStream := false;
  credits := 0;
  dataChannel := dataChannel st;
  dataChannels := dataChannels st;
  activeChannelIndex := 0%nat;
  nextSeq := 0;
  lastAck := -1;
  inflight := ∅;
  fileOffset := 0;
  currentChunkSize := 512 * 1024;
  totalBytesTransferred := 0;
  dynamicWindowSize := 16;
  sharedKey_ := sharedKey_ st |}.

Definition with_file (f : list Z) (st : state) : state := {|
  currentFile := Some f;
  transferState_ := transferState_ st; isTransferring := isTransferring st;
  isSending := isSending st; isVideoStream := isVideoStream st;
  credits := credits st; dataChannel := dataChannel st;
  dataChannels := dataChannels st;
  activeChannelIndex := activeChannelIndex st; nextSeq := nextSeq st;
  lastAck := lastAck st; inflight := inflight st;
  fileOffset := fileOffset st; currentChunkSize := currentChunkSize st;
  totalBytesTransferred := totalBytesTransferred st;
  dynamicWindowSize := dynamicWindowSize st; sharedKey_ := sharedKey_ st |}.

Definition with_flags (transferring sending : bool) (st : state) : state := {|
  currentFile := currentFile st;
  transferState_ := transferState_ st; isTransferring := transferring;
  isSending := sending; isVideoStream := isVideoStream st;
  credits := credits st; dataChannel := dataChannel st;
  dataChannels := dataChannels st;
  activeChannelIndex := activeChannelIndex st; nextSeq := nextSeq st;
  lastAck := lastAck st; inflight := inflight st;
  fileOffset := fileOffset st; currentChunkSize := currentChunkSize st;
  totalBytesTransferred := totalBytesTransferred st;
  dynamicWindowSize := dynamicWindowSize st; sharedKey_ := sharedKey_ st |}.

Definition with_nextSeq (n : Z) (st : state) : state := {|
  currentFile := currentFile st;
  transferState_ := transferState_ st; isTransferring := isTransferring st;
  isSending := isSending st; isVideoStream := isVideoStream st;
  credits := credits st; dataChannel := dataChannel st;
  dataChannels := dataChannels st;
  activeChannelIndex := activeChannelIndex st; nextSeq := n;
  lastAck := lastAck st; inflight := inflight st;
  fileOffset := fileOffset st; currentChunkSize := currentChunkSize st;
  totalBytesTransferred := totalBytesTransferred st;
  dynamicWindowSize := dynamicWindowSize st; sharedKey_ := sharedKey_ st |}.

Definition with_active (i : nat) (st : state) : state := {|
  currentFile := currentFile st;
  transferState_ := transferState_ st; isTransferring := isTransferring st;
  isSending := isSending st; isVideoStream := isVideoStream st;
  credits := credits st; dataChannel := dataChannel st;
  dataChannels := dataChannels st;
  activeChannelIndex := i; nextSeq := nextSeq st;
  lastAck := lastAck st; inflight := inflight st;
  fileOffset := fileOffset st; currentChunkSize := currentChunkSize st;
  totalBytesTransferred := totalBytesTransferred st;
  dynamicWindowSize := dynamicWindowSize st; sharedKey_ := sharedKey_ st |}.

(** [state.sharedKey = ...], the assignment of [deriveSharedKey]. *)
Definition with_sharedKey (k : sharedKey key) (st : state) : state := {|
  currentFile := currentFile st;
  transferState_ := transferState_ st; isTransferring := isTransferring st;
  isSending := isSending st; isVideoStream := isVideoStream st;
  credits := credits st; dataChannel := dataChannel st;
  dataChannels := dataChannels st;
  activeChannelIndex := activeChannelIndex st; nextSeq := nextSeq st;
  lastAck := lastAck st; inflight := inflight st;
  fileOffset := fileOffset st; currentChunkSize := currentChunkSize st;
  totalBytesTransferred := totalBytesTransferred st;
  dynamicWindowSize := dynamicWindowSize st; sharedKey_ := k |}.

Definition with_channels (c : option channel) (l : list channel)
    (st : state) : state := {|
  currentFile := currentFile st;
  transferState_ := transferState_ st; isTransferring := isTransferring st;
  isSending := isSending st; isVideoStream := isVideoStream st;
  credits := credits st; dataChannel := c; dataChannels := l;
  activeChannelIndex := activeChannelIndex st; nextSeq := nextSeq st;
  lastAck := lastAck st; inflight := inflight st;
  fileOffset := fileOffset st; currentChunkSize := currentChunkSize st;
  totalBytesTransferred := totalBytesTransferred st;
  dynamicWindowSize := dynamicWindowSize st; sharedKey_ := sharedKey_ st |}.

(** [file.slice(from, to)] on byte positions. *)
Definition fileSlice (f : list Z) (from to : Z) : list Z :=
  DataView.slice f (Z.to_nat from) (Z.to_nat to).

Definition chanReady (c : channel) : bool :=
  isOpen c && (bufferedAmount c <? MAX_BUFFER).

(** The round-robin scan: the first [attempts < n] such that channel
    [(activeChannelIndex + attempts) % n] is open and below
    [MAX_BUFFER]. *)
Definition pickChannel (n active : nat) (chans : list channel) : option nat :=
  List.find (fun idx => match chans !! idx with
                        | Some c => chanReady c
                        | None => false
                        end)
            (map (fun attempts => ((active + attempts) mod n)%nat) (seq 0 n)).

(** What one turn of the [while (fileOffset < size)] loop sees from
    outside: the state of the filtered channels and the bytes that
    [crypto.getRandomValues] yields. *)
Record observation : Type := {
  oChannels : list channel;
  oRandom : list Z
}.

(** How a turn of the loop ends. [Rejected]: an exception outside the
    [try], which the [async] function lets escape; [trySend] is over and
    [state.isSending] keeps the [true] it was given. *)
Inductive turn : Type :=
  | Wait (st : state)                           (* no channel ready: await *)
  | Rejected (st : state).

(** The encryption block of the loop body. The 12-byte [customIv] is
    built from [state.nextSeq] and passed as a SECOND argument to
    [encryptChunk], which declares one parameter only. *)
Definition encryptStep (st : state) (rnd : list Z) (chunk : list Z)
    : option (list Z * bool) :=
  match IS_SECURE, sharedKey_ st with
  | true, KeyDerived _ =>
      _customIv ← seqIv (nextSeq st);
      e ← encryptChunk gcm_encrypt IS_SECURE (sharedKey_ st) rnd chunk;
      Some (data e, true)
  | _, _ => Some (chunk, false)
  end.

(** One turn of the loop body: the round-robin pick, the slice, the
    encryption block, and the call
    [buildSonicPacket(state.nextSeq, chunk, isLast, offset, isEncrypted)],
    which throws because the name is bound to [undefined]. The call
    stands before the [try]: [currentDC.send], the three counter updates
    and the [catch] after it are never reached. *)
Definition sendTurn (n : nat) (file : list Z) (o : observation)
    (st : state) : turn :=
  match pickChannel n (activeChannelIndex st) (oChannels o) with
  | None => Wait st
  | Some idx =>
      let st := with_active ((idx + 1) mod n)%nat st in
      let offset := fileOffset st in
      let chunk := fileSlice file offset (offset + currentChunkSize st) in
      match encryptStep st (oRandom o) chunk with
      | None => Rejected st               (* [encryptChunk] rejected *)
      | Some (_chunk, _isEncrypted) =>
          Rejected st                     (* TypeError at the call *)
      end
  end.

(** The loop, one observation per turn, with the frames handed to
    [send]; no turn gets that far. When the observations run out the
    function is still suspended at an [await]. *)
Fixpoint sendLoop (n : nat) (file : list Z) (script : list observation)
    (st : state) : state * list (nat * sonicPacket) :=
  if Z.of_nat (length file) <=? fileOffset st
  then (with_flags (isTransferring st) false st, [])
  else match script with
       | [] => (st, [])
       | o :: script =>
           match sendTurn n file o st with
           | Wait st => sendLoop n file script st
           | Rejected st => (st, [])
           end
       end.

Definition channelOpen (c : option channel) : bool :=
  match c with Some c => isOpen c | None => false end.

(** [trySend()] *)
Definition trySend (script : list observation) (st : state)
    : state * list (nat * sonicPacket) :=
  match currentFile st with
  | None => (st, [])
  | Some file =>
      if negb (isTransferring st) || isSending st then (st, [])
      else
        let st := with_flags (isTransferring st) true st in
        let cands := match dataChannels st with
                     | [] => match dataChannel st with
                             | Some c => [c] | None => [] end
                     | l => l
                     end in
        let open := List.filter isOpen cands in
        if (length open =? 0)%nat && negb (channelOpen (dataChannel st))
        then (with_flags (isTransferring st) false st, [])
        else sendLoop (length open) file script st
  end.

(** The control messages of [handleMessage] that drive a transfer. The
    WebRTC and key-agreement messages (OFFER, ANSWER, ICE, CODE, READY,
    KEY) and ERROR, which only touches the page, are not modelled. *)
Inductive message : Type :=
| START_TRANSFER
| RESUME_FROM (byteOffset : Z)
| CHUNK_BATCH_ACK (sequences : list Z) (receivedBytes : Z)
| RETRANSMIT_REQUEST (sequences : list Z).

(** [handleMessage(msg)]: the new state, the frames put on
    [state.dataChannel] by the retransmit branch, and the frames that
    the [trySend()] it starts puts on the data channels. [trySend()] is
    not awaited, so its rejection does not reach the handler. [None]:
    the handler itself throws. In the RETRANSMIT_REQUEST loop that is
    the case for the first sequence number already:
    [state.currentFile.slice] throws when there is no file, and
    otherwise [buildSonicPacket(seq, chunk, isLast, offset, false)]
    does, before [state.dataChannel] is looked at. *)
Definition handleMessage (msg : message) (script : list observation)
    (st : state)
    : option (state * list sonicPacket * list (nat * sonicPacket)) :=
  match msg with
  | START_TRANSFER =>
      let '(st, out) :=
        trySend script (with_flags true (isSending st) st) in
      Some (st, [], out)
  | RESUME_FROM byteOffset =>
      let st := with_flags true (isSending st) st in
      let st := with_nextSeq (byteOffset / CHUNK_SIZE) st in
      let '(st, out) := trySend script st in
      Some (st, [], out)
  | CHUNK_BATCH_ACK _ receivedBytes =>
      file ← currentFile st;
      if Z.of_nat (length file) <=? receivedBytes
      then Some (with_flags false (isSending st) st, [], [])
      else Some (st, [], [])
  | RETRANSMIT_REQUEST seqs =>
      match seqs with
      | [] => Some (st, [], [])
      | _ :: _ => None
      end
  end.

(** Assignments to the flow-control fields of state.js: [state.lastAck],
    [state.inflight], [state.dynamicWindowSize] (set by
    [updateDynamicWindow]) and [state.credits]. *)
Definition with_window (ack : Z) (pending : gmap Z (list Z))
    (window credit : Z) (st : state) : state := {|
  currentFile := currentFile st;
  transferState_ := transferState_ st; isTransferring := isTransferring st;
  isSending := isSending st; isVideoStream := isVideoStream st;
  credits := credit; dataChannel := dataChannel st;
  dataChannels := dataChannels st;
  activeChannelIndex := activeChannelIndex st; nextSeq := nextSeq st;
  lastAck := ack; inflight := pending;
  fileOffset := fileOffset st; currentChunkSize := currentChunkSize st;
  totalBytesTransferred := totalBytesTransferred st;
  dynamicWindowSize := window; sharedKey_ := sharedKey_ st |}.

(** [sendFile(file)] followed by [startTransfer()]: once READY the file
    is announced (METADATA) and the transfer state is reset. *)
Definition sendFile (file : list Z) (st : state) : state :=
  let st := with_file file st in
  match transferState_ st with
  | READY => resetTransfer st
  | _ => st
  end.

End WithAesGcm.
End Sender.

(* ===================================================================== *)
(** ** receiver.js: class SonicReceiver *)
(* ===================================================================== *)

Module Receiver.
Import Crypto DataView.

(** config.js *)
Definition SACK_BATCH_SIZE : nat := 50.

Inductive rstate : Type :=
  | Idle | Connecting | Receiving | Assembling | Completed | Error.

(** [this.metadata], the fields the engine reads later. *)
Record metadata : Type := {
  fileName : string; fileSize : Z; mimeType : string; encrypted : bool
}.

(** A value of the [this.chunks] map ([receivedAt] is a time stamp). *)
Record chunkInfo : Type := { cOffset : Z; cSize : Z; cIsLast : bool }.

(** A record of the IndexedDB object store, [keyPath: "id"]
    ([savedAt] is a time stamp). *)
Record record : Type := {
  rId : string; rTransferId : option string; rSeq : Z;
  rData : list Z; rOffset : Z; rSize : Z; rIsLast : bool
}.

(** The object store: the records whose [put] has completed, and the
    [put] requests that were issued and have not completed yet, oldest
    first. *)
Record database : Type := {
  committed : gmap string record;
  requested : list record
}.

Inductive channelId : Type := OnControl | OnData.

Inductive controlMsg : Type :=
  | READY
  | START_TRANSFER
  | RESUME_FROM (byteOffset : Z) (receivedChunks : list Z)
  | CHUNK_BATCH_ACK (sequences : list Z) (receivedBytes : Z)
  | RETRANSMIT_REQUEST (sequences : list Z)
  | ERROR (message : string).

(** What the receiver does to the outside: a JSON message put on a
    channel, the file handed to the browser ([downloadFile]), and the
    [transfer_complete] note to the signaling socket. *)
Inductive effect : Type :=
| Send (via : channelId) (msg : controlMsg)
| Download (name : string) (bytes : list Z)
| NotifyTransferComplete.

(** The 16-byte header as [handleBinaryChunk] reads it. *)
Record header : Type := {
  hSeq : Z; hSize : Z; hOffset : Z; hFlags : Z; hReserved : Z;
  hChecksum : Z
}.

Definition parseHeader (buf : list Z) : option header :=
  seq ← getUint32 buf 0;
  size ← getUint32 buf 4;
  offset ← getUint32 buf 8;
  flags ← getUint8 buf 12;
  reserved ← getUint8 buf 13;
  checksum ← getUint16 buf 14;
  Some {| hSeq := seq; hSize := size; hOffset := offset; hFlags := flags;
          hReserved := reserved; hChecksum := checksum |}.

(** [calculateChecksum(data)], the loop of packet.js again. *)
Definition calculateChecksum (data : list Z) : Z :=
  fold_left (fun sum b => Z.land (sum + b) 65535)
            (take (Nat.min (length data) 100) data) 0.

(** The comparator [(a, b) => a.seq - b.seq] as an order. *)
Definition bySeq (a b : record) : Prop := rSeq a <= rSeq b.
#[global] Instance bySeq_dec (a b : record) : Decision (bySeq a b).
Proof. unfold bySeq. apply _. Defined.

(** The template strings of [handleMetadata] and [saveChunk]. *)
Definition makeTransferId (code name : string) (size : Z) : string :=
  code +:+ "_" +:+ name +:+ "_" +:+ pretty size.
Definition recordId (tid : option string) (seq : Z) : string :=
  default "null" tid +:+ "_" +:+ pretty seq.

Section WithAesGcm.
Context {key : Type}.
Variable gcm_decrypt : key -> list Z -> list Z -> option (list Z).
Variable IS_SECURE : bool.

(** The fields of a [SonicReceiver]. [cryptoKey] tells whether
    [this.cryptoKey] is set; [sharedKey_] is [state.sharedKey] of the
    shared state object, which crypto.js decrypts with; [ackTimer] tells
    whether the 100 ms timer is armed; [assembleTimers] counts the
    pending [setTimeout(() => this.assembleFile(), 100)];
    [awaitingDbRead] counts the calls of [assembleFile] suspended at
    [await this.getAllChunksFromDB()]; [cleaning] holds, oldest first,
    the transfer ids of the calls of [cleanup] suspended at their read
    of the store; [controlOpen] and [dcOpen] tell
    whether [this.controlChannel] / [this.dc] exist with [readyState]
    ["open"]. *)
Record t : Type := {
  code : string;
  metadata_ : option metadata;
  chunks : gmap Z chunkInfo;
  receivedBytes : Z;
  state_ : rstate;
  db : option database;
  transferId : option string;
  cryptoKey : bool;
  sharedKey_ : sharedKey key;
  readySent : bool;
  pendingAcks : list Z;
  ackTimer : bool;
  assembleTimers : nat;
  awaitingDbRead : nat;
  cleaning : list string;
  controlOpen : bool;
  dcOpen : bool
}.

Definition set_state (s : rstate) (r : t) : t := {|
  code := code r;
  metadata_ := metadata_ r;
  chunks := chunks r;
  receivedBytes := receivedBytes r;
  state_ := s;
  db := db r;
  transferId := transferId r;
  cryptoKey := cryptoKey r;
  sharedKey_ := sharedKey_ r;
  readySent := readySent r;
  pendingAcks := pendingAcks r;
  ackTimer := ackTimer r;
  assembleTimers := assembleTimers r;
  awaitingDbRead := awaitingDbRead r;
  cleaning := cleaning r;
  controlOpen := controlOpen r;
  dcOpen := dcOpen r |}.

Definition set_db (d : option database) (r : t) : t := {|
  code := code r;
  metadata_ := metadata_ r;
  chunks := chunks r;
  receivedBytes := receivedBytes r;
  state_ := state_ r;
  db := d;
  transferId := transferId r;
  cryptoKey := cryptoKey r;
  sharedKey_ := sharedKey_ r;
  readySent := readySent r;
  pendingAcks := pendingAcks r;
  ackTimer := ackTimer r;
  assembleTimers := assembleTimers r;
  awaitingDbRead := awaitingDbRead r;
  cleaning := cleaning r;
  controlOpen := controlOpen r;
  dcOpen := dcOpen r |}.

Definition set_acks (l : list Z) (timer : bool) (r : t) : t := {|
  code := code r;
  metadata_ := metadata_ r;
  chunks := chunks r;
  receivedBytes := receivedBytes r;
  state_ := state_ r;
  db := db r;
  transferId := transferId r;
  cryptoKey := cryptoKey r;
  sharedKey_ := sharedKey_ r;
  readySent := readySent r;
  pendingAcks := l;
  ackTimer := timer;
  assembleTimers := assembleTimers r;
  awaitingDbRead := awaitingDbRead r;
  cleaning := cleaning r;
  controlOpen := controlOpen r;
  dcOpen := dcOpen r |}.

Definition set_assembleTimers (n : nat) (r : t) : t := {|
  code := code r;
  metadata_ := metadata_ r;
  chunks := chunks r;
  receivedBytes := receivedBytes r;
  state_ := state_ r;
  db := db r;
  transferId := transferId r;
  cryptoKey := cryptoKey r;
  sharedKey_ := sharedKey_ r;
  readySent := readySent r;
  pendingAcks := pendingAcks r;
  ackTimer := ackTimer r;
  assembleTimers := n;
  awaitingDbRead := awaitingDbRead r;
  cleaning := cleaning r;
  controlOpen := controlOpen r;
  dcOpen := dcOpen r |}.

Definition set_awaiting (n : nat) (r : t) : t := {|
  code := code r;
  metadata_ := metadata_ r;
  chunks := chunks r;
  receivedBytes := receivedBytes r;
  state_ := state_ r;
  db := db r;
  transferId := transferId r;
  cryptoKey := cryptoKey r;
  sharedKey_ := sharedKey_ r;
  readySent := readySent r;
  pendingAcks := pendingAcks r;
  ackTimer := ackTimer r;
  assembleTimers := assembleTimers r;
  awaitingDbRead := n;
  cleaning := cleaning r;
  controlOpen := controlOpen r;
  dcOpen := dcOpen r |}.

Definition set_cleaning (l : list string) (r : t) : t := {|
  code := code r;
  metadata_ := metadata_ r;
  chunks := chunks r;
  receivedBytes := receivedBytes r;
  state_ := state_ r;
  db := db r;
  transferId := transferId r;
  cryptoKey := cryptoKey r;
  sharedKey_ := sharedKey_ r;
  readySent := readySent r;
  pendingAcks := pendingAcks r;
  ackTimer := ackTimer r;
  assembleTimers := assembleTimers r;
  awaitingDbRead := awaitingDbRead r;
  cleaning := l;
  controlOpen := controlOpen r;
  dcOpen := dcOpen r |}.

Definition set_received (m : gmap Z chunkInfo) (n : Z) (r : t) : t := {|
  code := code r;
  metadata_ := metadata_ r;
  chunks := m;
  receivedBytes := n;
  state_ := state_ r;
  db := db r;
  transferId := transferId r;
  cryptoKey := cryptoKey r;
  sharedKey_ := sharedKey_ r;
  readySent := readySent r;
  pendingAcks := pendingAcks r;
  ackTimer := ackTimer r;
  assembleTimers := assembleTimers r;
  awaitingDbRead := awaitingDbRead r;
  cleaning := cleaning r;
  controlOpen := controlOpen r;
  dcOpen := dcOpen r |}.

Definition set_metadata (m : metadata) (tid : string) (r : t) : t := {|
  code := code r;
  metadata_ := Some m;
  chunks := chunks r;
  receivedBytes := receivedBytes r;
  state_ := state_ r;
  db := db r;
  transferId := Some tid;
  cryptoKey := cryptoKey r;
  sharedKey_ := sharedKey_ r;
  readySent := readySent r;
  pendingAcks := pendingAcks r;
  ackTimer := ackTimer r;
  assembleTimers := assembleTimers r;
  awaitingDbRead := awaitingDbRead r;
  cleaning := cleaning r;
  controlOpen := controlOpen r;
  dcOpen := dcOpen r |}.

Definition set_channels (c d : bool) (r : t) : t := {|
  code := code r;
  metadata_ := metadata_ r;
  chunks := chunks r;
  receivedBytes := receivedBytes r;
  state_ := state_ r;
  db := db r;
  transferId := transferId r;
  cryptoKey := cryptoKey r;
  sharedKey_ := sharedKey_ r;
  readySent := readySent r;
  pendingAcks := pendingAcks r;
  ackTimer := ackTimer r;
  assembleTimers := assembleTimers r;
  awaitingDbRead := awaitingDbRead r;
  cleaning := cleaning r;
  controlOpen := c;
  dcOpen := d |}.

Definition set_sharedKey (k : sharedKey key) (r : t) : t := {|
  code := code r;
  metadata_ := metadata_ r;
  chunks := chunks r;
  receivedBytes := receivedBytes r;
  state_ := state_ r;
  db := db r;
  transferId := transferId r;
  cryptoKey := cryptoKey r;
  sharedKey_ := k;
  readySent := readySent r;
  pendingAcks := pendingAcks r;
  ackTimer := ackTimer r;
  assembleTimers := assembleTimers r;
  awaitingDbRead := awaitingDbRead r;
  cleaning := cleaning r;
  controlOpen := controlOpen r;
  dcOpen := dcOpen r |}.

Definition set_readySent (b : bool) (r : t) : t := {|
  code := code r;
  metadata_ := metadata_ r;
  chunks := chunks r;
  receivedBytes := receivedBytes r;
  state_ := state_ r;
  db := db r;
  transferId := transferId r;
  cryptoKey := cryptoKey r;
  sharedKey_ := sharedKey_ r;
  readySent := b;
  pendingAcks := pendingAcks r;
  ackTimer := ackTimer r;
  assembleTimers := assembleTimers r;
  awaitingDbRead := awaitingDbRead r;
  cleaning := cleaning r;
  controlOpen := controlOpen r;
  dcOpen := dcOpen r |}.

(** [new SonicReceiver(sessionCode)] *)
Definition create (sessionCode : string) : t := {|
  code := sessionCode; metadata_ := None; chunks := ∅;
  receivedBytes := 0; state_ := Idle; db := None; transferId := None;
  cryptoKey := false; sharedKey_ := KeyNull; readySent := false;
  pendingAcks := []; ackTimer := false; assembleTimers := 0%nat;
  awaitingDbRead := 0%nat; cleaning := []; controlOpen := false;
  dcOpen := false |}.

(** [sendControl(msg)] *)
Definition sendControl (r : t) (msg : controlMsg) : list effect :=
  if controlOpen r then [Send OnControl msg]
  else if dcOpen r then [Send OnData msg]
  else [].

(** [requestRetransmit(sequences)] *)
Definition requestRetransmit (r : t) (seqs : list Z) : list effect :=
  sendControl r (RETRANSMIT_REQUEST seqs).

(** [handleError(message)] *)
Definition handleError (message : string) (r : t) : t * list effect :=
  let r := set_state Error r in
  (r, sendControl r (ERROR message)).

(** [sendBatchAck()] *)
Definition sendBatchAck (r : t) : t * list effect :=
  match pendingAcks r with
  | [] => (r, [])
  | acks =>
      (set_acks [] false r,
       sendControl r (CHUNK_BATCH_ACK acks (receivedBytes r)))
  end.

(** The method [decryptChunk(encryptedData, seq)]: the IV is rebuilt
    from [seq] and handed to crypto.js. *)
Definition decryptChunk_ (r : t) (encryptedData : list Z) (seq : Z)
    : option (list Z) :=
  customIv ← seqIv seq;
  decryptChunk gcm_decrypt IS_SECURE (sharedKey_ r) encryptedData
               (Some customIv).

(** [saveChunk(seq, data, offset, isLast)] up to its [await]: without a
    database nothing happens, otherwise the [put] request is issued. *)
Definition saveChunk (seq : Z) (data : list Z) (offset : Z)
    (isLast : bool) (r : t) : t :=
  match db r with
  | None => r
  | Some d =>
      let rec := {| rId := recordId (transferId r) seq;
                    rTransferId := transferId r; rSeq := seq;
                    rData := data; rOffset := offset;
                    rSize := Z.of_nat (length data);
                    rIsLast := isLast |} in
      set_db (Some {| committed := committed d;
                      requested := requested d ++ [rec] |}) r
  end.

(** The tail of [handleBinaryChunk], from [this.chunks.set] on, for a
    frame that passed the checks. *)
Definition acceptChunk (h : header) (isLast : bool) (data : list Z)
    (r : t) : t * list effect :=
  let len := Z.of_nat (length data) in
  let r := set_received
             (<[hSeq h := {| cOffset := hOffset h; cSize := len;
                             cIsLast := isLast |}]> (chunks r))
             (receivedBytes r + len) r in
  let r := saveChunk (hSeq h) data (hOffset h) isLast r in
  (* Batch ACK *)
  let r := set_acks (pendingAcks r ++ [hSeq h]) (ackTimer r) r in
  let '(r, out) :=
    if (SACK_BATCH_SIZE <=? length (pendingAcks r))%nat
    then sendBatchAck r
    else if negb (ackTimer r)
         then (set_acks (pendingAcks r) true r, [])
         else (r, []) in
  (* Check if complete; [this.metadata.fileSize] throws into the
     [catch] when there is no metadata. *)
  let complete :=
    if isLast then true
    else match metadata_ r with
         | Some m => fileSize m <=? receivedBytes r
         | None => false
         end in
  if complete then (set_assembleTimers (S (assembleTimers r)) r, out)
  else (r, out).

(** [handleBinaryChunk(arrayBuffer)] *)
Definition handleBinaryChunk (arrayBuffer : list Z) (r : t)
    : t * list effect :=
  if (length arrayBuffer <? 16)%nat then (r, [])
  else
    match parseHeader arrayBuffer with
    | None => (r, [])
    | Some h =>
        let isLast := negb (Z.land (hFlags h) 1 =? 0) in
        let isEncrypted := negb (Z.land (hFlags h) 2 =? 0) in
        let expectedSize := 16 + hSize h in
        if negb (Z.of_nat (length arrayBuffer) =? expectedSize)
        then (r, requestRetransmit r [hSeq h])
        else
          match subarray arrayBuffer 16 (Z.to_nat (hSize h)) with
          | None => (r, [])
          | Some payload =>
              if negb (calculateChecksum payload =? hChecksum h)
              then (r, requestRetransmit r [hSeq h])
              else
                if isEncrypted && cryptoKey r
                then match decryptChunk_ r payload (hSeq h) with
                     | None => (r, requestRetransmit r [hSeq h])
                     | Some data => acceptChunk h isLast data r
                     end
                else acceptChunk h isLast payload r
          end
    end.

(** The gap check of [assembleFile]: over the keys in ascending order,
    [while (expectedSeq < seq) missing.push(expectedSeq++)], then
    [expectedSeq++]. *)
Definition gapStep (acc : list Z * Z) (seq : Z) : list Z * Z :=
  let '(missing, expectedSeq) := acc in
  if expectedSeq <? seq
  then (missing ++ seqZ expectedSeq (seq - expectedSeq), seq + 1)
  else (missing, expectedSeq + 1).

Definition missingChunks (m : gmap Z chunkInfo) : list Z :=
  fst (fold_left gapStep (merge_sort Z.le (map fst (map_to_list m)))
                 ([], 0)).

(** [getAllChunksFromDB()] when the request succeeds: the completed
    records of this transfer. *)
Definition getAllChunksFromDB (r : t) : list record :=
  match db r, transferId r with
  | Some d, Some tid =>
      List.filter (fun c => bool_decide (rTransferId c = Some tid))
                  (map snd (map_to_list (committed d)))
  | _, _ => []
  end.

(** "Verify and Combine": [result.set(new Uint8Array(chunk.data),
    offset); offset += chunk.size] over the records sorted by [seq]. *)
Definition combineChunks (sorted : list record) : option (list Z) :=
  let totalSize := fold_left (fun sum c => sum + rSize c) sorted 0 in
  fst <$> fold_left
    (fun acc c =>
       '(result, offset) ← acc;
       result ← write result (Z.to_nat offset) (rData c);
       Some (result, offset + rSize c))
    sorted (Some (alloc (Z.to_nat totalSize), 0)).

(** [cleanup()] up to its [await]: with a database and a transfer id it
    asks the store for the records of this transfer and waits; without,
    it goes straight to closing the channels and the peer connection. *)
Definition cleanup (r : t) : t :=
  match db r, transferId r with
  | Some _, Some tid => set_cleaning (cleaning r ++ [tid]) r
  | _, _ => set_channels false false r
  end.

(** [cleanup()] from the point where its read of the store has
    succeeded: the records it was given are deleted, then the channels
    and the peer connection are closed. *)
Definition cleanupResume (r : t) : t :=
  match cleaning r with
  | [] => r
  | tid :: rest =>
      let r := set_cleaning rest r in
      let r :=
        match db r with
        | Some d =>
            set_db (Some {| committed :=
                              filter (fun kv => rTransferId kv.2 ≠ Some tid)
                                     (committed d);
                            requested := requested d |}) r
        | None => r
        end in
      set_channels false false r
  end.

(** [assembleFile()] up to [await this.getAllChunksFromDB()]. *)
Definition assembleFile (r : t) : t * list effect :=
  match state_ r with
  | Assembling | Completed => (r, [])
  | _ =>
      let r := set_state Assembling r in
      match missingChunks (chunks r) with
      | [] => (set_awaiting (S (awaitingDbRead r)) r, [])
      | missing =>
          (set_state Receiving r, requestRetransmit r missing)
      end
  end.

(** [assembleFile()] from the point where the read of the store settles:
    [readOk = false] is a rejected request. Every exception inside the
    [try] ends in [handleError("Failed to assemble file")]. The DOM
    calls of [downloadFile] and the signaling socket are taken to
    return normally. *)
Definition assembleResume (readOk : bool) (r : t) : t * list effect :=
  let r := set_awaiting (Nat.pred (awaitingDbRead r)) r in
  let failed := handleError "Failed to assemble file" r in
  if negb readOk then failed
  else
    let finalSorted :=
      merge_sort bySeq (getAllChunksFromDB r) in
    match combineChunks finalSorted, metadata_ r with
    | Some result, Some m =>
        let r := cleanup (set_state Completed r) in
        (r, [Download (fileName m) result; NotifyTransferComplete])
    | _, _ => failed
    end.

(** [handleMetadata(msg)] together with the [checkResume()] it starts. *)
Definition handleMetadata (m : metadata) (r : t) : t * list effect :=
  let r := set_metadata m (makeTransferId (code r) (fileName m) (fileSize m)) r in
  let stored := getAllChunksFromDB r in
  let totalBytes := fold_left (fun sum c => sum + rSize c) stored 0 in
  match stored with
  | _ :: _ =>
      if 0 <? totalBytes then
        let chunkMap :=
          fold_left (fun acc c =>
                       <[rSeq c := {| cOffset := rOffset c; cSize := rSize c;
                                      cIsLast := rIsLast c |}]> acc)
                    stored ∅ in
        let r := set_received chunkMap totalBytes r in
        (r, sendControl r (RESUME_FROM totalBytes (map rSeq stored)))
      else
        let r := set_received ∅ 0 r in (r, sendControl r START_TRANSFER)
  | [] =>
      let r := set_received ∅ 0 r in (r, sendControl r START_TRANSFER)
  end.

(** The completion of the oldest pending [put]: on success the record
    replaces whatever the store holds under its [id]; on failure
    [saveChunk] logs a warning. *)
Definition putDone (ok : bool) (r : t) : t :=
  match db r with
  | Some d =>
      match requested d with
      | rec :: rest =>
          set_db (Some {| committed :=
                            if ok then <[rId rec := rec]> (committed d)
                            else committed d;
                          requested := rest |}) r
      | [] => r
      end
  | None => r
  end.

(** [channel.onopen] of [configureDataChannel]; [isDc] tells whether
    the channel that opened is [this.dc]. *)
Definition onDataChannelOpen (isDc : bool) (r : t) : t * list effect :=
  let r := set_state Receiving r in
  let r := if isDc then set_channels (controlOpen r) true r else r in
  if controlOpen r && negb (readySent r)
  then let r := set_readySent true r in (r, sendControl r READY)
  else (r, []).

(** [channel.onopen] of [setupControlChannel]. *)
Definition onControlOpen (r : t) : t * list effect :=
  let r := set_channels true (dcOpen r) r in
  if dcOpen r && negb (readySent r)
  then let r := set_readySent true r in (r, sendControl r READY)
  else (r, []).

(** [this.dc.onclose] *)
Definition onDcClose (r : t) : t * list effect :=
  let r := set_channels (controlOpen r) false r in
  match state_ r with
  | Receiving => handleError "Connection closed unexpectedly" r
  | _ => (r, [])
  end.

(** The events that reach a receiver during a transfer; a timer that was
    cleared, or never set, does not fire. [EReadDone] settles the oldest
    read of an [assembleFile], [ECleanupRead] completes the oldest read
    of a [cleanup]. [EError] is a call of
    [handleError]: a control message ERROR (with the peer's text),
    [this.dc.onerror], or an ICE connection that failed. *)
Inductive event : Type :=
| EMetadata (m : metadata)
| EFrame (arrayBuffer : list Z)
| EAckTimer
| EAssembleTimer
| EPutDone (ok : bool)
| EReadDone (ok : bool)
| ECleanupRead
| EError (message : string)
| EDataChannelOpen (isDc : bool)
| EControlOpen
| EDcClose.

Definition step (e : event) (r : t) : t * list effect :=
  match e with
  | EMetadata m => handleMetadata m r
  | EFrame buf => handleBinaryChunk buf r
  | EAckTimer => if ackTimer r then sendBatchAck r else (r, [])
  | EAssembleTimer =>
      match assembleTimers r with
      | S n => assembleFile (set_assembleTimers n r)
      | O => (r, [])
      end
  | EPutDone ok => (putDone ok r, [])
  | EReadDone ok =>
      match awaitingDbRead r with
      | S _ => assembleResume ok r
      | O => (r, [])
      end
  | ECleanupRead => (cleanupResume r, [])
  | EError message => handleError message r
  | EDataChannelOpen isDc => onDataChannelOpen isDc r
  | EControlOpen => onControlOpen r
  | EDcClose => onDcClose r
  end.

Fixpoint run (es : list event) (r : t) : t * list effect :=
  match es with
  | [] => (r, [])
  | e :: es =>
      let '(r, out) := step e r in
      let '(r, out') := run es r in
      (r, out ++ out')
  end.

End WithAesGcm.
End Receiver.

(* ===================================================================== *)
(** ** The earlier protocol scripts *)
(* ===================================================================== *)

Module Legacy.
Import Crypto.

(** *** The modular protocol script: [onData] with the reorder buffer,
    [saveChunkToDB] of db.js, [onResume] *)

Definition CHUNK_SIZE : Z := 256 * 1024.

Inductive transferState : Type := IDLE | WAITING | READY.

(** A parsed DATA packet, [{type: "DATA", seq, iv, payload}]. *)
Record dataPacket : Type := { dSeq : Z; dIv : list Z; dPayload : list Z }.

(** What [onData] sends back: the binary ACK handed to [sendBinaryData],
    the JSON ACK handed to [sendData], or (video mode) a CREDIT note. *)
Inductive reply : Type :=
| AckBinary (packet : option (list Z))
| AckJson (seq : Z)
| Credit (allow : Z).

(** How a call ends: it returns, an exception escapes it (a rejected
    decryption or store transaction), or the step budget of the model
    ran out. *)
Inductive ending : Type := Returned | Thrown | OutOfFuel.

Section WithAesGcm.
Context {key : Type}.
Variable gcm_decrypt : key -> list Z -> list Z -> option (list Z).
Variable IS_SECURE : bool.

(** The receiver side of the shared [state] object, the module-level
    [reorderBuffer], the "chunks" object store ([None]: [state.db] is not
    set) and the [expectedSeq] item of [localStorage]. *)
Record state : Type := {
  transferState_ : transferState;
  expectedSeq : Z;
  reorderBuffer : gmap Z (list Z);
  db : option (gmap Z (list Z));
  storedExpectedSeq : option Z;
  isVideoStream : bool;
  dataChannelOpen : bool;
  sharedKey_ : sharedKey key
}.

Definition set_buffer (b : gmap Z (list Z)) (st : state) : state := {|
  transferState_ := transferState_ st; expectedSeq := expectedSeq st;
  reorderBuffer := b; db := db st;
  storedExpectedSeq := storedExpectedSeq st;
  isVideoStream := isVideoStream st; dataChannelOpen := dataChannelOpen st;
  sharedKey_ := sharedKey_ st |}.

(** [saveChunkToDB(seq, data)] when the transaction completes: the [put]
    and the [localStorage.setItem("expectedSeq", state.expectedSeq)]. *)
Definition saveChunkToDB (seq : Z) (data : list Z) (st : state) : state :=
  match db st with
  | None => st
  | Some store => {|
      transferState_ := transferState_ st; expectedSeq := expectedSeq st;
      reorderBuffer := reorderBuffer st;
      db := Some (<[seq := data]> store);
      storedExpectedSeq := Some (expectedSeq st);
      isVideoStream := isVideoStream st;
      dataChannelOpen := dataChannelOpen st;
      sharedKey_ := sharedKey_ st |}
  end.

(** [reorderBuffer.delete(seq); state.expectedSeq++] *)
Definition consume (seq : Z) (st : state) : state := {|
  transferState_ := transferState_ st; expectedSeq := expectedSeq st + 1;
  reorderBuffer := delete seq (reorderBuffer st); db := db st;
  storedExpectedSeq := storedExpectedSeq st;
  isVideoStream := isVideoStream st; dataChannelOpen := dataChannelOpen st;
  sharedKey_ := sharedKey_ st |}.

(** Step 3 of the loop body, after [expectedSeq] was bumped. *)
Definition acknowledge (seq : Z) (st : state) : list reply :=
  if negb (isVideoStream st) then
    if dataChannelOpen st then [AckBinary (Packet.buildAckPacket seq)]
    else [AckJson seq]
  else if expectedSeq st mod 4 =? 0 then [Credit 4]
  else [].

(** [while (reorderBuffer.has(state.expectedSeq))]. [putOk k] tells whether
    the store transaction of the [k]-th turn completes; when it fails the
    rejection escapes [onData] before the entry is deleted. *)
Fixpoint drain (fuel : nat) (k : nat) (putOk : nat -> bool) (st : state)
    : state * list reply * ending :=
  match reorderBuffer st !! expectedSeq st with
  | None => (st, [], Returned)
  | Some data =>
      match fuel with
      | O => (st, [], OutOfFuel)
      | S fuel =>
          let seq := expectedSeq st in
          if bool_decide (db st = None) || putOk k then
            let st := consume seq (saveChunkToDB seq data st) in
            let '(st', out, e) := drain fuel (S k) putOk st in
            (st', acknowledge seq st ++ out, e)
          else (st, [], Thrown)
      end
  end.

(** [onData(p)]. Every turn of the loop deletes one key of the buffer, so
    its size bounds the number of turns. *)
Definition onData (p : dataPacket) (putOk : nat -> bool) (st : state)
    : state * list reply * ending :=
  match transferState_ st with
  | READY =>
      let stored :=
        if expectedSeq st <=? dSeq p then
          match reorderBuffer st !! dSeq p with
          | None =>
              decrypted ← decryptChunk gcm_decrypt IS_SECURE (sharedKey_ st)
                                       (dPayload p) (Some (dIv p));
              Some (set_buffer (<[dSeq p := decrypted]> (reorderBuffer st)) st)
          | Some _ => Some st
          end
        else Some st in
      match stored with
      | None => (st, [], Thrown)
      | Some st => drain (size (reorderBuffer st)) 0 putOk st
      end
  | _ => (st, [], Returned)
  end.

End WithAesGcm.

(** [onResume(p)] of the same script, up to the [trySend()] it ends with:
    the sender's [lastAck], [nextSeq], [fileOffset], [inflight] and
    [chunkRetries]. The loop runs over the keys of [inflight]: a retry
    counter is deleted only together with an in-flight chunk. *)
Record resumeState : Type := {
  lastAck : Z;
  nextSeq : Z;
  fileOffset : Z;
  inflight : gmap Z (list Z);
  chunkRetries : gmap Z Z
}.

Definition onResume (lastSeq : Z) (s : resumeState) : resumeState := {|
  lastAck := lastSeq;
  nextSeq := lastSeq + 1;
  fileOffset := (lastSeq + 1) * CHUNK_SIZE;
  inflight := filter (fun kv => ¬ kv.1 <= lastSeq) (inflight s);
  chunkRetries :=
    filter (fun kv => ¬ (kv.1 <= lastSeq /\ is_Some (inflight s !! kv.1)))
           (chunkRetries s)
|}.

(** *** The first, monolithic script: the sliding-window [trySend] *)

Module Mono.

Definition CHUNK_SIZE : Z := 32 * 1024.
Definition WINDOW_SIZE : Z := 8.

(** A DATA message put on the WebSocket: [{type: "DATA", seq, iv,
    payload}] with the IV and the ciphertext of [encryptChunk]. *)
Record dataMsg : Type := { mSeq : Z; mIv : list Z; mPayload : list Z }.

Section WithAesGcm.
Context {key : Type}.
Variable gcm_encrypt : key -> list Z -> list Z -> list Z.

(** The module-level variables of the sender; [sharedKey = None] is the
    initial [null]. *)
Record state : Type := {
  currentFile : option (list Z);
  ready : bool;                       (* state === "READY" *)
  isTransferring : bool;
  isSending : bool;
  nextSeq : Z;
  lastAck : Z;
  inflight : gmap Z (list Z);
  sharedKey : option key
}.

Definition set_sending (b : bool) (st : state) : state := {|
  currentFile := currentFile st; ready := ready st;
  isTransferring := isTransferring st; isSending := b;
  nextSeq := nextSeq st; lastAck := lastAck st; inflight := inflight st;
  sharedKey := sharedKey st |}.

Definition sent (chunk : list Z) (st : state) : state := {|
  currentFile := currentFile st; ready := ready st;
  isTransferring := isTransferring st; isSending := isSending st;
  nextSeq := nextSeq st + 1; lastAck := lastAck st;
  inflight := <[nextSeq st := chunk]> (inflight st);
  sharedKey := sharedKey st |}.

Definition totalChunks (file : list Z) : Z :=
  (Z.of_nat (length file) + CHUNK_SIZE - 1) / CHUNK_SIZE.

(** [while (nextSeq <= lastAck + WINDOW_SIZE && nextSeq < totalChunks)];
    [rnd seq] is the random IV drawn for chunk [seq]. The window bounds the
    number of turns. *)
Fixpoint sendWindow (fuel : nat) (file : list Z) (rnd : Z -> list Z)
    (st : state) : state * list dataMsg :=
  match fuel with
  | O => (set_sending false st, [])
  | S fuel =>
      if (nextSeq st <=? lastAck st + WINDOW_SIZE)
         && (nextSeq st <? totalChunks file)
      then
        let offset := nextSeq st * CHUNK_SIZE in
        let arrayBuffer :=
          DataView.slice file (Z.to_nat offset) (Z.to_nat (offset + CHUNK_SIZE)) in
        match sharedKey st with
        | None => (set_sending false st, [])     (* "Cannot send." *)
        | Some k =>
            let iv := rnd (nextSeq st) in
            let msg := {| mSeq := nextSeq st; mIv := iv;
                          mPayload := gcm_encrypt k iv arrayBuffer |} in
            let '(st', out) := sendWindow fuel file rnd (sent arrayBuffer st) in
            (st', msg :: out)
        end
      else (set_sending false st, [])
  end.

(** [trySend()], up to the completion check that follows the loop. *)
Definition trySend (rnd : Z -> list Z) (st : state) : state * list dataMsg :=
  match currentFile st with
  | Some file =>
      if negb (isTransferring st) || isSending st || negb (ready st)
      then (st, [])
      else sendWindow (Z.to_nat (lastAck st + WINDOW_SIZE + 1 - nextSeq st))
                      file rnd (set_sending true st)
  | None => (st, [])
  end.

(** [onAck(p)]: [lastAck = p.seq], the acknowledged chunks leave
    [inflight], then [trySend()]. *)
Definition onAck (seq : Z) (rnd : Z -> list Z) (st : state)
    : state * list dataMsg :=
  trySend rnd {|
    currentFile := currentFile st; ready := ready st;
    isTransferring := isTransferring st; isSending := isSending st;
    nextSeq := nextSeq st; lastAck := seq;
    inflight := filter (fun kv => ¬ kv.1 <= seq) (inflight st);
    sharedKey := sharedKey st |}.

End WithAesGcm.
End Mono.
End Legacy.

(* ===================================================================== *)
(** ** Layouts and sample peers used by the statements below *)
(* ===================================================================== *)

(** The frame laid out byte by byte. *)
Definition videoFrame (seq : Z) (payload : list Z) (isLast : bool)
    (fileOffset : Z) : list Z :=
  DataView.be8 Packet.VIDEO_DATA ++ DataView.be32 seq ++ DataView.be32 (Z.of_nat (length payload))
  ++ DataView.be32 fileOffset ++ DataView.be8 (if isLast then 1 else 0)
  ++ DataView.be16 (Packet.calculateChecksum payload) ++ payload.

(** A sender that has a file and a derived key, with one open data
    channel, as [sendFile] leaves it once READY. *)
Definition demoSender (file : list Z) (k : Crypto.sharedKey unit)
    : Sender.state (key := unit) :=
  Sender.with_sharedKey k
    (Sender.with_channels (Some {| Sender.isOpen := true;
                                   Sender.bufferedAmount := 0 |}) []
       (Sender.resetTransfer (Sender.with_file file Sender.initial))).

(** An AES-GCM stand-in that shows the IV it was given in front of the
    plaintext. *)
Definition showIv (k : unit) (iv plaintext : list Z) : list Z :=
  iv ++ plaintext.

Definition demoTurn (rnd : list Z) : Sender.observation := {|
  Sender.oChannels := [{| Sender.isOpen := true; Sender.bufferedAmount := 0 |}];
  Sender.oRandom := rnd |}.

(** A frame in the layout that [SonicReceiver.handleBinaryChunk] reads:
    seq, size and offset as 32-bit big-endian numbers at 0, 4 and 8, the
    flags at 12 (bit 0 isLast, bit 1 isEncrypted), a reserved byte, the
    16-bit checksum at 14, then the payload. *)
Definition sonicFrame (seq : Z) (payload : list Z) (isLast : bool)
    (offset : Z) (isEncrypted : bool) : list Z :=
  DataView.be32 seq ++ DataView.be32 (Z.of_nat (length payload))
  ++ DataView.be32 offset
  ++ [(if isLast then 1 else 0) + (if isEncrypted then 2 else 0)] ++ [0]
  ++ DataView.be16 (Receiver.calculateChecksum payload) ++ payload.

(** A receiver whose database and channels are open and which has been
    told about a file of [size] bytes. *)
Definition demoReceiver (size : Z) : Receiver.t (key := unit) :=
  fst (Receiver.handleMetadata
         {| Receiver.fileName := "f"; Receiver.fileSize := size;
            Receiver.mimeType := "text/plain"; Receiver.encrypted := false |}
         (Receiver.set_channels true true
            (Receiver.set_state Receiver.Receiving
               (Receiver.set_db (Some {| Receiver.committed := ∅;
                                         Receiver.requested := [] |})
                  (Receiver.create "ABC123"))))).

(** No decryption is ever asked of this stand-in. *)
Definition noDecrypt (k : unit) (iv data : list Z) : option (list Z) := None.

(** The first frame of an 8-byte file, a second frame with the same
    sequence number and other bytes, and a frame whose checksum field is
    wrong. *)
Definition frameA : list Z := sonicFrame 0 [1; 2; 3; 4] false 0 false.
Definition frameB : list Z := sonicFrame 0 [9; 9; 9; 9] false 0 false.
Definition frameBad : list Z :=
  [0; 0; 0; 0;  0; 0; 0; 4;  0; 0; 0; 0;  0; 0;  0; 99;  1; 2; 3; 4].


(** A 2-byte file whose last chunk arrives first, so that both frames
    start an assembly timer; the ACK timer expires, then the first
    assembly timer; an ERROR from the peer comes in while that assembly
    reads the store, and the second assembly timer expires after it. *)
Definition twoTimers : list Receiver.event :=
  [Receiver.EMetadata {| Receiver.fileName := "f"; Receiver.fileSize := 2;
                         Receiver.mimeType := "text/plain";
                         Receiver.encrypted := false |};
   Receiver.EFrame (sonicFrame 1 [2] true 1 false); Receiver.EPutDone true;
   Receiver.EFrame (sonicFrame 0 [1] false 0 false); Receiver.EPutDone true;
   Receiver.EAckTimer;
   Receiver.EAssembleTimer; Receiver.EError "peer"; Receiver.EAssembleTimer].

(** A receiver of the earlier script that has taken chunks 0 and 1, and a
    late copy of chunk 1. *)
Definition demoLegacy : Legacy.state (key := unit) := {|
  Legacy.transferState_ := Legacy.READY;
  Legacy.expectedSeq := 2;
  Legacy.reorderBuffer := ∅;
  Legacy.db := Some (<[1 := [3; 4]]> (<[0 := [1; 2]]> ∅));
  Legacy.storedExpectedSeq := Some 1;
  Legacy.isVideoStream := false;
  Legacy.dataChannelOpen := true;
  Legacy.sharedKey_ := Crypto.KeyInsecure |}.

Definition lateFrame : Legacy.dataPacket :=
  {| Legacy.dSeq := 1; Legacy.dIv := []; Legacy.dPayload := [7; 7] |}.

(** *** Reading a trace of receiver effects and events *)

Definition isAck (e : Receiver.effect) : bool :=
  match e with
  | Receiver.Send _ (Receiver.CHUNK_BATCH_ACK _ _) => true
  | _ => false
  end.

Definition isDownload (e : Receiver.effect) : bool :=
  match e with Receiver.Download _ _ => true | _ => false end.

Definition ackCount (out : list Receiver.effect) : nat :=
  length (List.filter isAck out).

Definition downloadCount (out : list Receiver.effect) : nat :=
  length (List.filter isDownload out).





(** *** Sample senders and channel observations *)

(** A turn in which the only channel is open but full. *)
Definition fullTurn : Sender.observation := {|
  Sender.oChannels := [{| Sender.isOpen := true;
                          Sender.bufferedAmount := Sender.MAX_BUFFER |}];
  Sender.oRandom := [] |}.

(** A turn with three channels: full, closed, ready. *)
Definition mixedTurn : Sender.observation := {|
  Sender.oChannels := [{| Sender.isOpen := true;
                          Sender.bufferedAmount := Sender.MAX_BUFFER |};
                       {| Sender.isOpen := false;
                          Sender.bufferedAmount := 0 |};
                       {| Sender.isOpen := true;
                          Sender.bufferedAmount := 1024 |}];
  Sender.oRandom := [] |}.

(** *** An in-order arrival at the receiver *)

(** The events of an in-order arrival: the chunks come in frames numbered
    from [seq], each with the file offset of its first byte, the last one
    flagged isLast, none flagged encrypted; every [put] completes before
    the next frame arrives. *)
Fixpoint arrival (seq offset : Z) (chunks : list (list Z))
    : list Receiver.event :=
  match chunks with
  | [] => []
  | c :: rest =>
      Receiver.EFrame
        (sonicFrame seq c (match rest with [] => true | _ => false end)
                    offset false)
      :: Receiver.EPutDone true
      :: arrival (seq + 1) (offset + Z.of_nat (length c)) rest
  end.

(** The records that [saveChunk] writes for these frames. *)
Fixpoint recordsFrom (tid : option string) (seq offset : Z)
    (chunks : list (list Z)) : list Receiver.record :=
  match chunks with
  | [] => []
  | c :: rest =>
      {| Receiver.rId := Receiver.recordId tid seq;
         Receiver.rTransferId := tid; Receiver.rSeq := seq;
         Receiver.rData := c; Receiver.rOffset := offset;
         Receiver.rSize := Z.of_nat (length c);
         Receiver.rIsLast := match rest with [] => true | _ => false end |}
      :: recordsFrom tid (seq + 1) (offset + Z.of_nat (length c)) rest
  end.

(** A new receiver whose database is open and empty. *)
Definition freshReceiver {key : Type} (code : string) (control data : bool)
    : Receiver.t (key := key) :=
  Receiver.set_channels control data
    (Receiver.set_db (Some {| Receiver.committed := ∅;
                              Receiver.requested := [] |})
       (Receiver.create code)).

(** *** The earlier scripts: a run of packets, a matching cipher *)



(** ACKs handled by the first script's [onAck] one after the other. *)
Definition ackAll {key : Type} (gcm_encrypt : key -> list Z -> list Z -> list Z)
    (rnd : Z -> list Z) (acks : list Z) (st : Legacy.Mono.state (key := key))
    : Legacy.Mono.state (key := key) :=
  fold_left (fun s a => fst (Legacy.Mono.onAck gcm_encrypt a rnd s)) acks st.

(** The decryption that undoes [showIv]: it checks the IV in front and
    returns what follows. *)
Definition stripIv (k : unit) (iv data : list Z) : option (list Z) :=
  if bool_decide (take (length iv) data = iv)
  then Some (drop (length iv) data) else None.


(** The sliding window of the first script: what is in flight lies
    strictly between [lastAck] and [nextSeq], and [nextSeq] is at most
    [WINDOW_SIZE] ahead of the chunk after [lastAck]. *)
Definition windowInv {key : Type} (st : Legacy.Mono.state (key := key))
    : Prop :=
  (forall k, is_Some (Legacy.Mono.inflight st !! k) ->
             Legacy.Mono.lastAck st < k < Legacy.Mono.nextSeq st)
  /\ Legacy.Mono.lastAck st < Legacy.Mono.nextSeq st
  /\ Legacy.Mono.nextSeq st
     <= Legacy.Mono.lastAck st + Legacy.Mono.WINDOW_SIZE + 1.

(** The first script's sender when a transfer starts: READY, a key, the
    counters at their initial values. *)
Definition monoStart (file : list Z) : Legacy.Mono.state (key := unit) := {|
  Legacy.Mono.currentFile := Some file; Legacy.Mono.ready := true;
  Legacy.Mono.isTransferring := true; Legacy.Mono.isSending := false;
  Legacy.Mono.nextSeq := 0; Legacy.Mono.lastAck := -1;
  Legacy.Mono.inflight := ∅; Legacy.Mono.sharedKey := Some tt |}.

(** *** A transfer started from [sendFile] *)

(** The open channels among those [trySend] considers: the parallel
    channels, or the default channel when there are none. *)
Definition pool {key : Type} (st : Sender.state (key := key))
    : list Sender.channel :=
  List.filter Sender.isOpen
    (match Sender.dataChannels st with
     | [] => match Sender.dataChannel st with Some c => [c] | None => [] end
     | l => l
     end).

(** A sender that is READY, its data channel open and first in the list
    of parallel channels, and that still carries the counters of an
    earlier transfer. *)
Definition readySender (file : option (list Z)) : Sender.state (key := unit) :=
  {| Sender.currentFile := file; Sender.transferState_ := Sender.READY;
     Sender.isTransferring := false; Sender.isSending := false;
     Sender.isVideoStream := false; Sender.credits := 0;
     Sender.dataChannel := Some {| Sender.isOpen := true;
                                   Sender.bufferedAmount := 0 |};
     Sender.dataChannels := [{| Sender.isOpen := true;
                                Sender.bufferedAmount := 0 |}];
     Sender.activeChannelIndex := 0%nat;
     Sender.nextSeq := 7; Sender.lastAck := 6; Sender.inflight := ∅;
     Sender.fileOffset := 99; Sender.currentChunkSize := 64 * 1024;
     Sender.totalBytesTransferred := 99; Sender.dynamicWindowSize := 16;
     Sender.sharedKey_ := Crypto.KeyInsecure |}.

(* ===================================================================== *)
(** * Properties *)
(* ===================================================================== *)

(** ** The framing codec (packet.js) *)

Section PacketFacts.
Import DataView Packet.

Lemma overwrite_replicate (x : Z) (p : list Z) :
  overwrite (replicate (length p) x) p = Some p.
Proof.
  induction p as [|b p IH]; cbn [length replicate overwrite]; [done|].
  by rewrite IH.
Qed.

Lemma land_ones16 (x : Z) : Z.land x 65535 = x mod 65536.
Proof. change 65535 with (Z.ones 16). by rewrite Z.land_ones. Qed.

Lemma checksum_fold_mod (l : list Z) (acc : Z) :
  fold_left checksum_step l acc = (acc + foldr Z.add 0 l) mod 65536
  \/ l = [] /\ fold_left checksum_step l acc = acc.
Proof.
  revert acc. induction l as [|b l IH]; intros acc; [right; done|left].
  cbn [fold_left foldr]. unfold checksum_step at 2. rewrite land_ones16.
  destruct (IH ((acc + b) mod 65536)) as [-> | [-> ->]].
  - rewrite Zplus_mod_idemp_l. f_equal. lia.
  - cbn [foldr]. f_equal. lia.
Qed.

(** The loop computes the sum of the first [min(len, 100)] bytes modulo
    2^16. *)
Lemma calculateChecksum_sum (data : list Z) :
  calculateChecksum data
  = foldr Z.add 0 (take (Nat.min (length data) 100) data) mod 65536.
Proof.
  unfold calculateChecksum.
  destruct (checksum_fold_mod (take (Nat.min (length data) 100) data) 0)
    as [-> | [-> ->]]; [f_equal; lia | done].
Qed.

Lemma calculateChecksum_range (data : list Z) :
  0 <= calculateChecksum data < 65536.
Proof. rewrite calculateChecksum_sum. apply Z.mod_pos_bound. lia. Qed.

Lemma be32_decode (v : Z) :
  0 <= v < 4294967296 ->
  let w := v mod 4294967296 in
  w / 16777216 * 16777216 + (w / 65536) mod 256 * 65536
  + (w / 256) mod 256 * 256 + w mod 256 = v.
Proof.
  intros Hv w. subst w. rewrite (Z.mod_small v) by lia.
  Z.div_mod_to_equations. lia.
Qed.

Lemma be16_decode (v : Z) :
  0 <= v < 65536 ->
  let w := v mod 65536 in w / 256 * 256 + w mod 256 = v.
Proof.
  intros Hv w. subst w. rewrite (Z.mod_small v) by lia.
  Z.div_mod_to_equations. lia.
Qed.

Lemma buildVideoPacket_layout (seq : Z) (payload : list Z) (isLast : bool)
    (fileOffset : Z) :
  buildVideoPacket seq payload isLast fileOffset
  = Some (videoFrame seq payload isLast fileOffset).
Proof.
  assert ((if fileOffset =? 0 then 0 else fileOffset) = fileOffset) as Hor
    by (destruct (Z.eqb_spec fileOffset 0); congruence).
  unfold buildVideoPacket, videoFrame. rewrite Hor.
  unfold setUint8, setUint16, setUint32, alloc, be8, be16, be32.
  cbn [Nat.add replicate write overwrite mbind option_bind fmap option_fmap
       option_map app].
  rewrite overwrite_replicate. reflexivity.
Qed.

Lemma parse_videoFrame (seq : Z) (payload : list Z) (isLast : bool)
    (fileOffset : Z) :
  0 <= seq < 4294967296 ->
  0 <= fileOffset < 4294967296 ->
  Z.of_nat (length payload) < 4294967296 ->
  parsePacket (videoFrame seq payload isLast fileOffset)
  = Some (PVideoData seq (Z.of_nat (length payload)) fileOffset isLast
            (calculateChecksum payload) payload).
Proof.
  intros Hseq Hoff Hlen.
  pose proof (calculateChecksum_range payload) as Hck.
  unfold parsePacket, videoFrame, getUint8, getUint16, getUint32,
    be8, be16, be32.
  cbn [app lookup list_lookup Nat.add mbind option_bind].
  change (VIDEO_DATA mod 256) with 10.
  change (10 =? ACK) with false. change (10 =? DATA) with false.
  change (10 =? VIDEO_DATA) with true. cbv iota.
  rewrite (be32_decode seq Hseq), (be32_decode fileOffset Hoff).
  rewrite (be32_decode (Z.of_nat (length payload))) by lia.
  rewrite (be16_decode _ Hck).
  replace ((if isLast then 1 else 0) mod 256 =? 1) with isLast
    by (by destruct isLast).
  unfold slice. rewrite Nat2Z.id. do 2 f_equal.
  rewrite take_ge; [apply drop_0 | rewrite length_drop; simpl; lia].
Qed.

End PacketFacts.

(** C7: for every 32-bit [seq] and [fileOffset], every flag and every byte
    payload shorter than 2^32, [buildVideoPacket] returns a frame of
    [16 + len] bytes, laid out big-endian as type, seq, size, offset, isLast,
    checksum, payload; [parsePacket] reads back a VIDEO_DATA record with the
    same seq, size = len, fileOffset, isLast and payload; and the checksum
    is the sum of the first [min(len, 100)] payload bytes modulo 2^16. *)
Theorem C7_video_packet_roundtrip
    (seq fileOffset : Z) (payload : list Z) (isLast : bool) :
  0 <= seq < 4294967296 ->
  0 <= fileOffset < 4294967296 ->
  DataView.bytes_ok payload ->
  Z.of_nat (length payload) < 4294967296 ->
  exists frame,
    Packet.buildVideoPacket seq payload isLast fileOffset = Some frame
    /\ length frame = (16 + length payload)%nat
    /\ frame = [10] ++ DataView.be32 seq
               ++ DataView.be32 (Z.of_nat (length payload))
               ++ DataView.be32 fileOffset ++ [if isLast then 1 else 0]
               ++ DataView.be16 (Packet.calculateChecksum payload) ++ payload
    /\ Packet.parsePacket frame
       = Some (Packet.PVideoData seq (Z.of_nat (length payload)) fileOffset
                 isLast (Packet.calculateChecksum payload) payload)
    /\ Packet.calculateChecksum payload
       = foldr Z.add 0 (take (Nat.min (length payload) 100) payload)
         mod 65536.
Proof.
  intros Hseq Hoff _ Hlen.
  exists (videoFrame seq payload isLast fileOffset).
  split; [apply buildVideoPacket_layout|].
  split; [unfold videoFrame; rewrite !length_app; cbn; lia|].
  split; [unfold videoFrame, DataView.be8; by destruct isLast|].
  split; [by apply parse_videoFrame|].
  apply calculateChecksum_sum.
Qed.

Lemma C7_video_packet_roundtrip_witness :
  exists frame,
    Packet.buildVideoPacket 258 [7; 8; 9] true 65536 = Some frame
    /\ length frame = 19%nat
    /\ frame = [10; 0;0;1;2; 0;0;0;3; 0;1;0;0; 1; 0;24; 7;8;9]
    /\ Packet.parsePacket frame
       = Some (Packet.PVideoData 258 3 65536 true 24 [7; 8; 9])
    /\ Packet.calculateChecksum [7; 8; 9] = 24.
Proof.
  assert (DataView.bytes_ok [7; 8; 9]) as Hb
    by (repeat constructor; unfold DataView.byte_ok; lia).
  destruct (C7_video_packet_roundtrip 258 65536 [7; 8; 9] true
              ltac:(lia) ltac:(lia) Hb ltac:(cbn; lia))
    as (frame & H1 & H2 & H3 & H4 & H5).
  exists frame. repeat split; assumption.
Defined.

(** ** The sender (protocol.js) *)

Section SenderFacts.
Import Crypto Sender.
Context {key : Type}.
Variable gcm_encrypt : key -> list Z -> list Z -> list Z.
Variable gcm_decrypt : key -> list Z -> list Z -> option (list Z).
Variable IS_SECURE : bool.

Lemma seqIv_layout (seq : Z) :
  seqIv seq = Some ([0; 0; 0; 0; 0; 0; 0; 0] ++ DataView.be32 seq).
Proof. reflexivity. Qed.

(** The encryption block hands AES-GCM the random IV, whatever the
    sequence number. *)
Lemma encryptStep_derived (k : key) (st : state) (rnd chunk : list Z) :
  encryptStep gcm_encrypt true (with_sharedKey (KeyDerived k) st) rnd chunk
  = Some (gcm_encrypt k rnd chunk, true).
Proof. reflexivity. Qed.

Lemma encryptStep_plain (st : state) (rnd chunk : list Z) :
  (IS_SECURE = true -> forall k, sharedKey_ st <> KeyDerived k) ->
  encryptStep gcm_encrypt IS_SECURE st rnd chunk = Some (chunk, false).
Proof.
  intros H. unfold encryptStep. destruct IS_SECURE; [|done].
  destruct (sharedKey_ st) as [| |k]; try done. by destruct (H eq_refl k).
Qed.

(** A turn that waits has changed nothing. *)
Lemma sendTurn_wait (n : nat) (file : list Z) (o : observation)
    (st st' : state) :
  sendTurn gcm_encrypt IS_SECURE n file o st = Wait st' -> st' = st.
Proof.
  unfold sendTurn. destruct (pickChannel _ _ _); [|by intros [=]].
  by destruct (encryptStep _ _ _ _ _) as [[c e]|].
Qed.

(** A turn that picks a channel moves [activeChannelIndex] past it and
    ends at the [buildSonicPacket] call: nothing else has changed. *)
Lemma sendTurn_rejected (n : nat) (file : list Z) (o : observation)
    (st st' : state) :
  sendTurn gcm_encrypt IS_SECURE n file o st = Rejected st' ->
  exists idx,
    pickChannel n (activeChannelIndex st) (oChannels o) = Some idx
    /\ st' = with_active ((idx + 1) mod n)%nat st.
Proof.
  unfold sendTurn. destruct (pickChannel _ _ _) as [idx|]; [|done].
  intros H. exists idx. split; [done|].
  by destruct (encryptStep _ _ _ _ _) as [[c e]|]; injection H as <-.
Qed.

(** No run of the loop hands a frame to [send], and none moves [nextSeq],
    [fileOffset] or [totalBytesTransferred]. *)
Lemma sendLoop_silent (n : nat) (file : list Z) (script : list observation)
    (st : state) :
  let r := sendLoop gcm_encrypt IS_SECURE n file script st in
  r.2 = [] /\ nextSeq r.1 = nextSeq st /\ fileOffset r.1 = fileOffset st
  /\ totalBytesTransferred r.1 = totalBytesTransferred st.
Proof.
  cbv zeta. revert st.
  induction script as [|o script IH]; intros st; cbn [sendLoop].
  - by destruct (_ <=? _).
  - destruct (_ <=? _); [done|].
    destruct (sendTurn _ _ _ _ _ _) as [s|s] eqn:Ht.
    + pose proof (sendTurn_wait _ _ _ _ _ Ht) as ->. apply IH.
    + by apply sendTurn_rejected in Ht as (idx & _ & ->).
Qed.

Lemma trySend_silent (script : list observation) (st : state) :
  let r := trySend gcm_encrypt IS_SECURE script st in
  r.2 = [] /\ nextSeq r.1 = nextSeq st /\ fileOffset r.1 = fileOffset st
  /\ totalBytesTransferred r.1 = totalBytesTransferred st.
Proof.
  cbv zeta. unfold trySend. destruct (currentFile st) as [file|]; [|done].
  destruct (_ || _); [done|]. destruct (_ && _); [done|].
  apply (sendLoop_silent _ file script
           (with_flags (isTransferring st) true st)).
Qed.

(** Whatever the message, [handleMessage] puts no frame on a channel. *)
Lemma handleMessage_silent (msg : message) (script : list observation)
    (st st' : state) (resent : list sonicPacket)
    (out : list (nat * sonicPacket)) :
  handleMessage gcm_encrypt IS_SECURE msg script st = Some (st', resent, out) ->
  resent = [] /\ out = [].
Proof.
  destruct msg as [|byteOffset|seqs bytes|seqs]; cbn [handleMessage].
  - pose proof (trySend_silent script (with_flags true (isSending st) st))
      as [H _]. cbv zeta in H.
    destruct (trySend _ _ _ _) as [s o]. cbn in H. by intros [= _ <- <-].
  - pose proof (trySend_silent script
                  (with_nextSeq (byteOffset / CHUNK_SIZE)
                     (with_flags true (isSending st) st))) as [H _].
    cbv zeta in H.
    destruct (trySend _ _ _ _) as [s o]. cbn in H. by intros [= _ <- <-].
  - destruct (currentFile st); [|done]. cbn.
    by destruct (_ <=? _); intros [= _ <- <-].
  - destruct seqs; [|done]. by intros [= _ <- <-].
Qed.

End SenderFacts.

(** C1 (the code departs from the claim): the 12-byte IV built from the
    sequence number is dropped at the call, [encryptChunk] draws a random IV
    and encrypts with it (first part), while the receiver's [decryptChunk]
    decrypts with the IV rebuilt from [seq] (second part); for chunk 0 that
    is twelve zero bytes (third part), which the random bytes are not. *)
Theorem C1_sender_encrypts_with_random_iv :
  (forall (key : Type) (enc : key -> list Z -> list Z -> list Z) (k : key)
          (st : Sender.state) (rnd chunk : list Z),
      Sender.encryptStep enc true
        (Sender.with_sharedKey (Crypto.KeyDerived k) st) rnd chunk
      = Some (enc k rnd chunk, true))
  /\ (forall (key : Type) (dec : key -> list Z -> list Z -> option (list Z))
             (k : key) (r : Receiver.t) (payload : list Z) (seq : Z),
         Receiver.decryptChunk_ dec true
           (Receiver.set_sharedKey (Crypto.KeyDerived k) r) payload seq
         = dec k ([0; 0; 0; 0; 0; 0; 0; 0] ++ DataView.be32 seq) payload)
  /\ Crypto.seqIv 0 = Some [0; 0; 0; 0; 0; 0; 0; 0; 0; 0; 0; 0].
Proof.
  split; [intros; apply encryptStep_derived|].
  split; [intros; reflexivity|reflexivity].
Qed.

(** C4 (the code departs from the claim): RESUME_FROM sets [nextSeq] to
    [floor(byteOffset / CHUNK_SIZE)] and leaves [fileOffset] alone. After
    [sendFile] reset the transfer, the run of [trySend] that the resume
    starts therefore still has [fileOffset = 0], whatever the offset asked
    for, and reads the file from byte 0 again (second arm). A first frame
    of that run would carry offset 0 and the bytes from 0 on (first arm);
    as every turn ends at the [buildSonicPacket] call, the run hands no
    frame to [send] and the second arm is the one taken. *)
Theorem C4_resume_leaves_fileOffset
    (key : Type) (enc : key -> list Z -> list Z -> list Z) (secure : bool)
    (file : list Z) (byteOffset : Z) (script : list Sender.observation)
    (st : Sender.state) :
  let st0 := Sender.resetTransfer (Sender.with_file file st) in
  match Sender.handleMessage enc secure (Sender.RESUME_FROM byteOffset)
          script st0 with
  | Some (_, _, (_, p) :: _) =>
      Sender.pSeq p = byteOffset / 262144
      /\ Sender.pOffset p = 0
      /\ (if Sender.pIsEncrypted p then True
          else Sender.pChunk p = Sender.fileSlice file 0 524288)
  | Some (st1, _, []) =>
      Sender.fileOffset st1 = 0 /\ Sender.nextSeq st1 = byteOffset / 262144
  | None => False
  end.
Proof.
  intros st0. cbn [Sender.handleMessage].
  set (st1 := Sender.with_nextSeq _ _).
  assert (Sender.fileOffset st1 = 0 /\ Sender.nextSeq st1 = byteOffset / 262144
          /\ Sender.currentChunkSize st1 = 524288
          /\ Sender.currentFile st1 = Some file) as (Hoff & Hseq & Hsz & Hf)
    by (by subst st1 st0).
  pose proof (trySend_silent enc secure script st1) as (Hout & Hs & Ho & _).
  cbv zeta in Hout, Hs, Ho.
  destruct (Sender.trySend enc secure script st1) as [st2 out].
  cbn [fst snd] in Hout, Hs, Ho. subst out. by rewrite Hs, Ho.
Qed.

(** The earlier [onResume], by contrast, moves the read position along with
    the sequence number. *)
Lemma onResume_moves_fileOffset (lastSeq : Z) (s : Legacy.resumeState) :
  Legacy.fileOffset (Legacy.onResume lastSeq s)
  = Legacy.nextSeq (Legacy.onResume lastSeq s) * Legacy.CHUNK_SIZE.
Proof. reflexivity. Qed.

(** A resume at byte 3 of a 5-byte file: the turn picks the channel and
    slices the file from byte 0; [fileOffset] and [nextSeq] are 0 after
    it, nothing was sent and [isSending] is still set. *)
Example C4_resume_example :
  Sender.handleMessage showIv false (Sender.RESUME_FROM 3) [demoTurn []]
    (demoSender [1; 2; 3; 4; 5] Crypto.KeyInsecure)
  = Some (Sender.with_active 0
            (Sender.with_flags true true
               (demoSender [1; 2; 3; 4; 5] Crypto.KeyInsecure)),
          [], []).
Proof. vm_compute. reflexivity. Qed.

(** C5: no DATA chunk leaves the sender while [sharedKey] is [null]. In
    protocol.js the loop tests the key around the encryption only, but
    every turn that has picked a channel ends at the [buildSonicPacket]
    call, before [send]: a [trySend] with [sharedKey = null] hands no
    frame to a channel (first part), nor does any message handled in that
    state (second part); at START_TRANSFER with [sharedKey = null] and a
    3-byte file the run ends with nothing sent (third part). The first,
    monolithic [trySend] refuses outright: it sends nothing while its
    [sharedKey] is [null] (fourth part). *)
Theorem C5_no_data_without_key :
  (forall (key : Type) (enc : key -> list Z -> list Z -> list Z)
          (secure : bool) (script : list Sender.observation)
          (st : Sender.state),
      Sender.sharedKey_ st = Crypto.KeyNull ->
      (Sender.trySend enc secure script st).2 = [])
  /\ (forall (key : Type) (enc : key -> list Z -> list Z -> list Z)
             (secure : bool) (msg : Sender.message)
             (script : list Sender.observation) (st st' : Sender.state)
             (resent : list Sender.sonicPacket)
             (out : list (nat * Sender.sonicPacket)),
         Sender.sharedKey_ st = Crypto.KeyNull ->
         Sender.handleMessage enc secure msg script st
         = Some (st', resent, out) ->
         resent = [] /\ out = [])
  /\ (Sender.sharedKey_ (demoSender [1; 2; 3] Crypto.KeyNull) = Crypto.KeyNull
      /\ Sender.handleMessage showIv true Sender.START_TRANSFER [demoTurn []]
           (demoSender [1; 2; 3] Crypto.KeyNull)
         = Some (Sender.with_active 0
                   (Sender.with_flags true true
                      (demoSender [1; 2; 3] Crypto.KeyNull)),
                 [], []))
  /\ (forall (key : Type) (enc : key -> list Z -> list Z -> list Z)
             (rnd : Z -> list Z) (mono : Legacy.Mono.state),
         match Legacy.Mono.sharedKey mono with
         | None => snd (Legacy.Mono.trySend enc rnd mono) = []
         | Some _ => True
         end).
Proof.
  split; [|split; [|split]].
  - intros key enc secure script st _.
    apply (trySend_silent enc secure script st).
  - intros key enc secure msg script st st' resent out _.
    apply handleMessage_silent.
  - split; [reflexivity | vm_compute; reflexivity].
  - intros key enc rnd mono.
    destruct (Legacy.Mono.sharedKey mono) eqn:Hk; [done|].
    unfold Legacy.Mono.trySend.
    destruct (Legacy.Mono.currentFile mono); [|done].
    destruct (_ || _); [done|].
    destruct (Z.to_nat _); cbn [Legacy.Mono.sendWindow]; [done|].
    destruct (_ && _); [|done].
    cbn [Legacy.Mono.set_sending Legacy.Mono.sharedKey]. by rewrite Hk.
Qed.

(** The budget given to the window loop of the monolithic sender is
    enough: more of it changes nothing. *)
Lemma sendWindow_turn (key : Type) (enc : key -> list Z -> list Z -> list Z)
    (fuel : nat) (file : list Z) (rnd : Z -> list Z)
    (st : Legacy.Mono.state) :
  Legacy.Mono.sendWindow enc (S fuel) file rnd st
  = if (Legacy.Mono.nextSeq st
        <=? Legacy.Mono.lastAck st + Legacy.Mono.WINDOW_SIZE)
       && (Legacy.Mono.nextSeq st <? Legacy.Mono.totalChunks file)
    then
      let offset := Legacy.Mono.nextSeq st * Legacy.Mono.CHUNK_SIZE in
      let arrayBuffer :=
        DataView.slice file (Z.to_nat offset)
          (Z.to_nat (offset + Legacy.Mono.CHUNK_SIZE)) in
      match Legacy.Mono.sharedKey st with
      | None => (Legacy.Mono.set_sending false st, [])
      | Some k =>
          let iv := rnd (Legacy.Mono.nextSeq st) in
          let r := Legacy.Mono.sendWindow enc fuel file rnd
                     (Legacy.Mono.sent arrayBuffer st) in
          (fst r, {| Legacy.Mono.mSeq := Legacy.Mono.nextSeq st;
                     Legacy.Mono.mIv := iv;
                     Legacy.Mono.mPayload := enc k iv arrayBuffer |} :: snd r)
      end
    else (Legacy.Mono.set_sending false st, []).
Proof.
  cbn [Legacy.Mono.sendWindow]. destruct (_ && _); [|done].
  destruct (Legacy.Mono.sharedKey st); [|done].
  by destruct (Legacy.Mono.sendWindow _ _ _ _ _).
Qed.

Lemma sendWindow_budget (key : Type) (enc : key -> list Z -> list Z -> list Z)
    (fuel : nat) (file : list Z) (rnd : Z -> list Z)
    (st : Legacy.Mono.state) :
  Legacy.Mono.lastAck st + Legacy.Mono.WINDOW_SIZE + 1 - Legacy.Mono.nextSeq st
  <= Z.of_nat fuel ->
  Legacy.Mono.sendWindow enc (S fuel) file rnd st
  = Legacy.Mono.sendWindow enc fuel file rnd st.
Proof.
  revert st. induction fuel as [|fuel IH]; intros st Hle.
  - rewrite sendWindow_turn. cbn [Legacy.Mono.sendWindow].
    destruct (Z.leb_spec (Legacy.Mono.nextSeq st)
                (Legacy.Mono.lastAck st + Legacy.Mono.WINDOW_SIZE)); [lia|done].
  - rewrite (sendWindow_turn key enc (S fuel)), (sendWindow_turn key enc fuel).
    destruct (_ && _); [|done].
    destruct (Legacy.Mono.sharedKey st); [|done].
    cbn zeta. rewrite IH; [done|].
    cbn [Legacy.Mono.sent Legacy.Mono.lastAck Legacy.Mono.nextSeq]. lia.
Qed.

(** ** The receiver (receiver.js) *)

Section ReceiverFacts.
Import Crypto DataView Receiver.
Context {key : Type}.
Variable gcm_decrypt : key -> list Z -> list Z -> option (list Z).
Variable IS_SECURE : bool.

Abbreviation handleBinaryChunk := (Receiver.handleBinaryChunk gcm_decrypt IS_SECURE).
Abbreviation step := (Receiver.step gcm_decrypt IS_SECURE).
Abbreviation run := (Receiver.run gcm_decrypt IS_SECURE).

Implicit Types (r : Receiver.t (key := key)) (h : header).

(** A buffer of 16 bytes or more always has a header. *)
Lemma parseHeader_total (buf : list Z) :
  (16 <= length buf)%nat -> is_Some (parseHeader buf).
Proof.
  intros H. do 16 (destruct buf as [|? buf]; [cbn in H; lia|]). by eexists.
Qed.

Lemma subarray_payload (buf : list Z) (size : Z) :
  0 <= size -> Z.of_nat (length buf) = 16 + size ->
  subarray buf 16 (Z.to_nat size) = Some (drop 16 buf).
Proof.
  intros Hs H. unfold subarray.
  destruct (Nat.leb_spec (16 + Z.to_nat size) (length buf)) as [_|Hlt]; [|lia].
  f_equal. apply take_ge. rewrite length_drop. lia.
Qed.

Lemma sendControl_channels r r' (msg : controlMsg) :
  controlOpen r' = controlOpen r -> dcOpen r' = dcOpen r ->
  sendControl r' msg = sendControl r msg.
Proof. unfold sendControl. by intros -> ->. Qed.

(** The three ways [handleBinaryChunk] ends. *)
Lemma handleBinaryChunk_cases (buf : list Z) r :
  handleBinaryChunk buf r = (r, [])
  \/ (exists h, parseHeader buf = Some h
        /\ handleBinaryChunk buf r = (r, requestRetransmit r [hSeq h]))
  \/ (exists h isLast data, parseHeader buf = Some h
        /\ handleBinaryChunk buf r = acceptChunk h isLast data r).
Proof.
  unfold Receiver.handleBinaryChunk.
  destruct (_ <? _)%nat; [by left|].
  destruct (parseHeader buf) as [h|]; [|by left].
  destruct (negb (_ =? _)); [right; left; by exists h|].
  destruct (subarray _ _ _) as [payload|]; [|by left].
  destruct (negb (_ =? _)); [right; left; by exists h|].
  destruct (_ && _).
  - destruct (decryptChunk_ _ _ _ _ _) as [data|];
      [right; right | right; left]; eauto.
  - right; right; eauto.
Qed.

(** Projections of updated receivers compute. *)
Ltac rsimpl :=
  cbn [code metadata_ chunks receivedBytes state_ db transferId cryptoKey
       sharedKey_ readySent pendingAcks ackTimer assembleTimers
       awaitingDbRead cleaning controlOpen dcOpen
       set_state set_db set_acks set_assembleTimers set_awaiting set_cleaning
       set_received set_metadata set_channels set_sharedKey set_readySent
       committed requested fst snd] in *.

Lemma saveChunk_fields (seq : Z) (data : list Z) (offset : Z)
    (isLast : bool) r :
  let r' := saveChunk seq data offset isLast r in
  metadata_ r' = metadata_ r /\ chunks r' = chunks r
  /\ receivedBytes r' = receivedBytes r /\ state_ r' = state_ r
  /\ pendingAcks r' = pendingAcks r /\ ackTimer r' = ackTimer r
  /\ assembleTimers r' = assembleTimers r
  /\ awaitingDbRead r' = awaitingDbRead r
  /\ controlOpen r' = controlOpen r /\ dcOpen r' = dcOpen r
  /\ (committed <$> db r') = (committed <$> db r).
Proof.
  unfold saveChunk. destruct (db r) eqn:Hdb; rsimpl; rewrite ?Hdb;
    repeat (split; [reflexivity|]); reflexivity.
Qed.

(** The bookkeeping of [acceptChunk], field by field. *)
Lemma acceptChunk_acks h (isLast : bool) (data : list Z) r :
  let r' := fst (acceptChunk h isLast data r) in
  let out := snd (acceptChunk h isLast data r) in
  if (SACK_BATCH_SIZE <=? S (length (pendingAcks r)))%nat
  then pendingAcks r' = [] /\ ackTimer r' = false
       /\ out = sendControl r
                  (CHUNK_BATCH_ACK (pendingAcks r ++ [hSeq h])
                     (receivedBytes r + Z.of_nat (length data)))
  else pendingAcks r' = pendingAcks r ++ [hSeq h] /\ ackTimer r' = true
       /\ out = [].
Proof.
  unfold acceptChunk.
  set (r1 := set_received _ _ r).
  pose proof (saveChunk_fields (hSeq h) data (hOffset h) isLast r1)
    as (Hm & _ & Hb & _ & Hp & Ht & _ & _ & Hc & Hd & _).
  set (r2 := saveChunk _ _ _ _ r1) in *. subst r1. rsimpl.
  unfold sendBatchAck. rsimpl. rewrite Hp, Ht, length_app, Nat.add_1_r. cbn [length].
  destruct (SACK_BATCH_SIZE <=? S (length (pendingAcks r)))%nat.
  - destruct (pendingAcks r ++ [hSeq h]) eqn:Happ;
      [by destruct (pendingAcks r)|].
    rewrite <- Happ, Hb.
    assert (sendControl (set_acks (pendingAcks r ++ [hSeq h]) (ackTimer r) r2)
              (CHUNK_BATCH_ACK (pendingAcks r ++ [hSeq h])
                 (receivedBytes r + Z.of_nat (length data)))
            = sendControl r
                (CHUNK_BATCH_ACK (pendingAcks r ++ [hSeq h])
                   (receivedBytes r + Z.of_nat (length data)))) as ->
      by (by apply sendControl_channels).
    repeat case_match; simplify_eq; rsimpl; done.
  - destruct (ackTimer r); repeat case_match; simplify_eq; rsimpl; done.
Qed.

Lemma acceptChunk_fields h (isLast : bool) (data : list Z) r :
  let r' := fst (acceptChunk h isLast data r) in
  state_ r' = state_ r /\ awaitingDbRead r' = awaitingDbRead r
  /\ controlOpen r' = controlOpen r /\ dcOpen r' = dcOpen r
  /\ receivedBytes r' = receivedBytes r + Z.of_nat (length data)
  /\ chunks r' = <[hSeq h := {| cOffset := hOffset h;
                                cSize := Z.of_nat (length data);
                                cIsLast := isLast |}]> (chunks r)
  /\ (committed <$> db r') = (committed <$> db r)
  /\ (assembleTimers r' = assembleTimers r
      \/ assembleTimers r' = S (assembleTimers r)).
Proof.
  unfold acceptChunk.
  set (r1 := set_received _ _ r).
  pose proof (saveChunk_fields (hSeq h) data (hOffset h) isLast r1)
    as (Hm & Hk & Hb & Hs & Hp & Ht & Ha & Hw & Hc & Hd & Hdb).
  set (r2 := saveChunk _ _ _ _ r1) in *. subst r1. rsimpl.
  unfold sendBatchAck. rsimpl.
  repeat case_match; simplify_eq; rsimpl; auto 10.
Qed.

Lemma sendControl_counts r (msg : controlMsg) :
  downloadCount (sendControl r msg) = 0%nat
  /\ (ackCount (sendControl r msg) <= 1)%nat.
Proof.
  unfold sendControl, downloadCount, ackCount.
  repeat case_match; cbn; split; try done; destruct msg; cbn; lia.
Qed.

Lemma acceptChunk_out h (isLast : bool) (data : list Z) r :
  let out := snd (acceptChunk h isLast data r) in
  downloadCount out = 0%nat /\ (ackCount out <= 1)%nat.
Proof.
  pose proof (acceptChunk_acks h isLast data r) as H. cbn zeta in *.
  destruct (_ <=? _)%nat; destruct H as (_ & _ & ->).
  - apply sendControl_counts.
  - cbn. lia.
Qed.

(** Frame handling never touches the assembly state and delivers
    nothing. *)
Lemma handleBinaryChunk_fields (buf : list Z) r :
  let r' := fst (handleBinaryChunk buf r) in
  let out := snd (handleBinaryChunk buf r) in
  state_ r' = state_ r /\ awaitingDbRead r' = awaitingDbRead r
  /\ downloadCount out = 0%nat.
Proof.
  destruct (handleBinaryChunk_cases buf r)
    as [-> | [(h & _ & ->) | (h & l & d & _ & ->)]]; cbn zeta.
  - done.
  - cbn [fst snd]. split; [done|]. split; [done|].
    apply sendControl_counts.
  - pose proof (acceptChunk_fields h l d r) as (? & ? & _).
    pose proof (acceptChunk_out h l d r) as [? _]. done.
Qed.

Lemma calculateChecksum_sum' (data : list Z) :
  calculateChecksum data
  = foldr Z.add 0 (take (Nat.min (length data) 100) data) mod 65536.
Proof. apply calculateChecksum_sum. Qed.

(** C6, amended: a buffer shorter than the 16-byte header is dropped, and
    nothing is sent for it (there is no sequence number to name); for a
    frame whose length differs from 16 plus the header's size field, or
    whose payload checksum (the sum of the first [min(len, 100)] payload
    bytes modulo 2^16) differs from the header's, the receiver stores
    nothing and hands RETRANSMIT_REQUEST for the header's [seq] to
    [sendControl], which puts it on the control channel when that is open
    and else on the data channel when that is open. *)
Theorem C6_framing_errors (buf : list Z) r :
  ((length buf < 16)%nat -> handleBinaryChunk buf r = (r, []))
  /\ ((16 <= length buf)%nat ->
      exists h, parseHeader buf = Some h
        /\ (Z.of_nat (length buf) <> 16 + hSize h
            \/ calculateChecksum (drop 16 buf) <> hChecksum h ->
            handleBinaryChunk buf r
            = (r, if controlOpen r
                  then [Send OnControl (RETRANSMIT_REQUEST [hSeq h])]
                  else if dcOpen r
                       then [Send OnData (RETRANSMIT_REQUEST [hSeq h])]
                       else [])))
  /\ calculateChecksum (drop 16 buf)
     = foldr Z.add 0 (take (Nat.min (length (drop 16 buf)) 100) (drop 16 buf))
       mod 65536.
Proof.
  split; [|split; [|apply calculateChecksum_sum']].
  - intros H. unfold Receiver.handleBinaryChunk.
    by destruct (Nat.ltb_spec (length buf) 16); [|lia].
  - intros Hlen. destruct (parseHeader_total buf Hlen) as [h Hh].
    exists h. split; [done|]. intros Herr.
    unfold Receiver.handleBinaryChunk. rewrite Hh.
    destruct (Nat.ltb_spec (length buf) 16); [lia|].
    destruct (Z.eqb_spec (Z.of_nat (length buf)) (16 + hSize h)) as [Heq|];
      cbn [negb]; [|done].
    rewrite subarray_payload by lia.
    destruct Herr as [|Hck]; [done|].
    by destruct (Z.eqb_spec (calculateChecksum (drop 16 buf)) (hChecksum h)).
Qed.

(** [saveChunk] is called without [await]: the step that accepts a frame only ISSUES the [put], completes
    none, and in that same step enqueues the frame's [seq] for
    acknowledgement (or flushes it at once when it is the 50th). *)
Lemma acceptChunk_acks_before_put h (isLast : bool) (data : list Z) r :
  let r' := fst (acceptChunk h isLast data r) in
  let out := snd (acceptChunk h isLast data r) in
  (committed <$> db r') = (committed <$> db r)
  /\ if (SACK_BATCH_SIZE <=? S (length (pendingAcks r)))%nat
     then out = sendControl r
                  (CHUNK_BATCH_ACK (pendingAcks r ++ [hSeq h])
                     (receivedBytes r + Z.of_nat (length data)))
     else pendingAcks r' = pendingAcks r ++ [hSeq h].
Proof.
  pose proof (acceptChunk_fields h isLast data r) as (_&_&_&_&_&_&Hdb&_).
  pose proof (acceptChunk_acks h isLast data r) as H. cbn zeta in *.
  split; [done|]. destruct (_ <=? _)%nat; tauto.
Qed.

(** Every accepted frame adds its
    length to [receivedBytes] and overwrites the entry of its [seq],
    whether or not that [seq] was received before. *)
Lemma acceptChunk_counts_duplicates h (isLast : bool) (data : list Z) r :
  let r' := fst (acceptChunk h isLast data r) in
  receivedBytes r' = receivedBytes r + Z.of_nat (length data)
  /\ chunks r' !! hSeq h = Some {| cOffset := hOffset h;
                                   cSize := Z.of_nat (length data);
                                   cIsLast := isLast |}.
Proof.
  pose proof (acceptChunk_fields h isLast data r) as (_&_&_&_&Hb&Hc&_).
  cbn zeta in *. split; [done|]. rewrite Hc. apply lookup_insert_eq.
Qed.

(** *** Batched acknowledgements *)


Lemma sendControl_one r (msg : controlMsg) :
  controlOpen r || dcOpen r = true ->
  exists via, sendControl r msg = [Send via msg].
Proof.
  unfold sendControl. destruct (controlOpen r), (dcOpen r); cbn; try done;
    eauto.
Qed.




Lemma run_cons (e : event) (es : list event) r :
  run (e :: es) r
  = (fst (run es (fst (step e r))),
     snd (step e r) ++ snd (run es (fst (step e r)))).
Proof.
  cbn [Receiver.run]. destruct (step e r) as [r1 o1]. cbn [fst snd].
  by destruct (run es r1).
Qed.


Lemma downloadCount_app (a b : list effect) :
  downloadCount (a ++ b) = (downloadCount a + downloadCount b)%nat.
Proof. unfold downloadCount. by rewrite List.filter_app, length_app. Qed.





(** *** Assembly *)

Lemma assembleFile_guard r :
  state_ r = Assembling \/ state_ r = Completed -> assembleFile r = (r, []).
Proof. unfold assembleFile. by intros [-> | ->]. Qed.

End ReceiverFacts.

(** ** The reorder buffer of the earlier protocol script *)

Section LegacyFacts.
Import Crypto Legacy.
Context {key : Type}.
Variable gcm_decrypt : key -> list Z -> list Z -> option (list Z).
Variable IS_SECURE : bool.

Abbreviation onData := (Legacy.onData gcm_decrypt IS_SECURE).

Implicit Types (st : Legacy.state (key := key)).

Ltac lsimpl :=
  cbn [transferState_ expectedSeq reorderBuffer db storedExpectedSeq
       isVideoStream dataChannelOpen sharedKey_ set_buffer consume
       saveChunkToDB fst snd] in *.

Lemma saveChunkToDB_fields (seq : Z) (data : list Z) st :
  let st' := saveChunkToDB seq data st in
  expectedSeq st' = expectedSeq st /\ reorderBuffer st' = reorderBuffer st
  /\ transferState_ st' = transferState_ st
  /\ forall s, s <> seq -> (db st' ≫= (.!! s)) = (db st ≫= (.!! s)).
Proof.
  unfold saveChunkToDB. destruct (db st) as [m|] eqn:Hdb; lsimpl.
  - repeat (split; [reflexivity|]). intros s Hs. cbn.
    by rewrite lookup_insert_ne.
  - rewrite Hdb. done.
Qed.

(** One turn of the loop: the entry at [expectedSeq] is saved and removed,
    [expectedSeq] goes up by one. *)
Lemma turn_fields (data : list Z) st :
  let st' := consume (expectedSeq st) (saveChunkToDB (expectedSeq st) data st) in
  expectedSeq st' = expectedSeq st + 1
  /\ reorderBuffer st' = delete (expectedSeq st) (reorderBuffer st)
  /\ transferState_ st' = transferState_ st
  /\ forall s, s <> expectedSeq st ->
       (db st' ≫= (.!! s)) = (db st ≫= (.!! s)).
Proof.
  pose proof (saveChunkToDB_fields (expectedSeq st) data st)
    as (H1 & H2 & H3 & H4). cbn zeta in *. lsimpl.
  by rewrite H1, H2, H3.
Qed.

(** The loop never lowers [expectedSeq], leaves alone what lies below it,
    and stops by its own test when given the size of the buffer as
    budget. *)
Lemma drain_spec (fuel k : nat) (putOk : nat -> bool) st :
  let '(st', out, e) := drain fuel k putOk st in
  expectedSeq st <= expectedSeq st'
  /\ transferState_ st' = transferState_ st
  /\ (forall s, s < expectedSeq st ->
        reorderBuffer st' !! s = reorderBuffer st !! s
        /\ (db st' ≫= (.!! s)) = (db st ≫= (.!! s)))
  /\ (size (reorderBuffer st) <= fuel -> e <> OutOfFuel)%nat
  /\ (e = Returned -> reorderBuffer st' !! expectedSeq st' = None)
  /\ (reorderBuffer st !! expectedSeq st = None ->
      st' = st /\ out = [] /\ e = Returned).
Proof.
  revert k st. induction fuel as [|fuel IH]; intros k st; cbn [drain].
  - destruct (reorderBuffer st !! expectedSeq st) as [data|] eqn:Hb.
    + repeat split; try done; try lia.
      intros Hsz.
      assert (reorderBuffer st = ∅) as Hempty
        by (apply map_size_empty_inv; lia).
      by rewrite Hempty in Hb.
    + repeat split; try done; lia.
  - destruct (reorderBuffer st !! expectedSeq st) as [data|] eqn:Hb;
      [|repeat split; try done; lia].
    destruct (bool_decide (db st = None) || putOk k);
      [|repeat split; try done; lia].
    pose proof (turn_fields data st) as (H1 & H2 & H3 & H4). cbn zeta in *.
    set (st1 := consume _ _) in *.
    specialize (IH (S k) st1).
    destruct (drain fuel (S k) putOk st1) as [[st' out] e].
    destruct IH as (I1 & I2 & I3 & I4 & I5 & _).
    split; [lia|]. split; [congruence|]. split; [|split; [|split; [done|done]]].
    + intros s Hs. destruct (I3 s ltac:(lia)) as [-> ->].
      rewrite H2, lookup_delete_ne by lia. split; [done|]. apply H4. lia.
    + intros Hsz. apply I4. rewrite H2.
      rewrite map_size_delete, Hb. lia.
Qed.

Lemma onData_spec (p : dataPacket) (putOk : nat -> bool) st :
  let '(st', out, e) := onData p putOk st in
  expectedSeq st <= expectedSeq st'
  /\ e <> OutOfFuel
  /\ (dSeq p < expectedSeq st ->
      reorderBuffer st' !! dSeq p = reorderBuffer st !! dSeq p
      /\ (db st' ≫= (.!! dSeq p)) = (db st ≫= (.!! dSeq p))
      /\ (reorderBuffer st !! expectedSeq st = None ->
          st' = st /\ out = [] /\ e = Returned))
  /\ (e = Returned -> transferState_ st = READY ->
      reorderBuffer st' !! expectedSeq st' = None).
Proof.
  unfold Legacy.onData.
  destruct (transferState_ st) eqn:Hts;
    try (repeat split; try done; lia).
  destruct (Z.leb_spec (expectedSeq st) (dSeq p)) as [Hle|Hlt].
  - destruct (reorderBuffer st !! dSeq p) as [old|] eqn:Hold.
    + pose proof (drain_spec (size (reorderBuffer st)) 0 putOk st) as H.
      destruct (drain _ _ _ _) as [[st' out] e].
      destruct H as (H1 & H2 & H3 & H4 & H5 & H6).
      split; [done|]. split; [by apply H4|]. split; [lia|]. intros He _. by apply H5.
    + destruct (decryptChunk _ _ _ _ _) as [dec|]; cbn [mbind option_bind];
        [|repeat split; try done; lia].
      set (st1 := set_buffer _ st).
      pose proof (drain_spec (size (reorderBuffer st1)) 0 putOk st1) as H.
      destruct (drain _ _ _ _) as [[st' out] e].
      destruct H as (H1 & H2 & H3 & H4 & H5 & H6). subst st1. lsimpl.
      split; [done|]. split; [by apply H4|]. split; [lia|]. intros He _. by apply H5.
  - pose proof (drain_spec (size (reorderBuffer st)) 0 putOk st) as H.
    destruct (drain _ _ _ _) as [[st' out] e].
    destruct H as (H1 & H2 & H3 & H4 & H5 & H6).
    split; [done|]. split; [by apply H4|]. split; [|intros He _; by apply H5].
    intros _. destruct (H3 (dSeq p) Hlt) as [-> ->]. done.
Qed.

(** C8: a call of [onData] returns or throws (the loop ends by its own
    test), never lowers [expectedSeq], and for a frame whose [seq] is below
    [expectedSeq] it neither inserts the frame into the reorder buffer nor
    writes it to the chunk store: the buffer and the store are the same at
    that [seq] afterwards. When the buffer holds nothing at [expectedSeq],
    which is how every returning call leaves it, such a frame changes
    nothing at all and nothing is sent. *)
Theorem C8_expectedSeq_monotone
    (p : dataPacket) (putOk : nat -> bool) st :
  let st' := fst (fst (onData p putOk st)) in
  let out := snd (fst (onData p putOk st)) in
  let e := snd (onData p putOk st) in
  expectedSeq st <= expectedSeq st'
  /\ e <> OutOfFuel
  /\ (dSeq p < expectedSeq st ->
      reorderBuffer st' !! dSeq p = reorderBuffer st !! dSeq p
      /\ (db st' ≫= (.!! dSeq p)) = (db st ≫= (.!! dSeq p))
      /\ (reorderBuffer st !! expectedSeq st = None ->
          st' = st /\ out = [] /\ e = Returned))
  /\ (e = Returned -> transferState_ st = READY ->
      reorderBuffer st' !! expectedSeq st' = None).
Proof.
  pose proof (onData_spec p putOk st) as H.
  by destruct (onData p putOk st) as [[st' out] e].
Qed.

End LegacyFacts.

(** ** The statements at concrete inputs *)

Example buildVideoPacket_ex :
  Packet.buildVideoPacket 258 [7; 8; 9] true 65536
  = Some [10; 0;0;1;2; 0;0;0;3; 0;1;0;0; 1; 0;24; 7;8;9].
Proof. reflexivity. Qed.

Example sonicFrame_ex :
  frameA = [0; 0; 0; 0;  0; 0; 0; 4;  0; 0; 0; 0;  0; 0;  0; 10;  1; 2; 3; 4].
Proof. reflexivity. Qed.

(** C2 (the code departs from the claim): the accepting step completes no
    [put] and yet enqueues, or at once acknowledges, the frame's [seq]. On
    the sample receiver the frame with [seq] 0 is acknowledged by the timer
    while its [put] is still pending, and stays acknowledged when that
    [put] then fails: the store never holds it. *)
Theorem C2_ack_precedes_persistence :
  (forall (key : Type) (r : Receiver.t (key := key)) (h : Receiver.header)
          (isLast : bool) (data : list Z),
      let r' := fst (Receiver.acceptChunk h isLast data r) in
      let out := snd (Receiver.acceptChunk h isLast data r) in
      (Receiver.committed <$> Receiver.db r')
      = (Receiver.committed <$> Receiver.db r)
      /\ if (Receiver.SACK_BATCH_SIZE <=? S (length (Receiver.pendingAcks r)))%nat
         then out = Receiver.sendControl r
                      (Receiver.CHUNK_BATCH_ACK
                         (Receiver.pendingAcks r ++ [Receiver.hSeq h])
                         (Receiver.receivedBytes r + Z.of_nat (length data)))
         else Receiver.pendingAcks r'
              = Receiver.pendingAcks r ++ [Receiver.hSeq h])
  /\ (let '(r, out) :=
        Receiver.run noDecrypt false
          [Receiver.EFrame frameA; Receiver.EAckTimer] (demoReceiver 8) in
      out = [Receiver.Send Receiver.OnControl
               (Receiver.CHUNK_BATCH_ACK [0] 4)]
      /\ (Receiver.committed <$> Receiver.db r) = Some ∅
      /\ (length ∘ Receiver.requested <$> Receiver.db r) = Some 1%nat)
  /\ (let '(r, out) :=
        Receiver.run noDecrypt false
          [Receiver.EFrame frameA; Receiver.EAckTimer; Receiver.EPutDone false]
          (demoReceiver 8) in
      out = [Receiver.Send Receiver.OnControl
               (Receiver.CHUNK_BATCH_ACK [0] 4)]
      /\ Receiver.db r
         = Some {| Receiver.committed := ∅; Receiver.requested := [] |}).
Proof.
  split; [intros; apply acceptChunk_acks_before_put|].
  split; vm_compute; repeat split; reflexivity.
Qed.

(** C3 (the code departs from the claim): an accepted frame adds its length
    to [receivedBytes] and replaces the entry of its [seq] even when that
    [seq] was received before. On the sample receiver, told of an 8-byte
    file, the same 4-byte frame twice gives [receivedBytes = 8] with one
    4-byte chunk held, which triggers assembly and delivers a 4-byte file;
    and a second frame with the same [seq] and other bytes replaces the
    stored payload. *)
Theorem C3_duplicate_frames_are_counted :
  (forall (key : Type) (r : Receiver.t (key := key)) (h : Receiver.header)
          (isLast : bool) (data : list Z),
      let r' := fst (Receiver.acceptChunk h isLast data r) in
      Receiver.receivedBytes r'
      = Receiver.receivedBytes r + Z.of_nat (length data)
      /\ Receiver.chunks r' !! Receiver.hSeq h
         = Some {| Receiver.cOffset := Receiver.hOffset h;
                   Receiver.cSize := Z.of_nat (length data);
                   Receiver.cIsLast := isLast |})
  /\ (let r1 := fst (Receiver.run noDecrypt false [Receiver.EFrame frameA]
                       (demoReceiver 8)) in
      let r2 := fst (Receiver.run noDecrypt false
                       [Receiver.EFrame frameA; Receiver.EFrame frameA]
                       (demoReceiver 8)) in
      Receiver.receivedBytes r1 = 4 /\ Receiver.receivedBytes r2 = 8
      /\ Receiver.chunks r2 = Receiver.chunks r1
      /\ Receiver.assembleTimers r1 = 0%nat
      /\ Receiver.assembleTimers r2 = 1%nat)
  /\ snd (Receiver.run noDecrypt false
            [Receiver.EFrame frameA; Receiver.EFrame frameA;
             Receiver.EPutDone true; Receiver.EPutDone true;
             Receiver.EAssembleTimer; Receiver.EReadDone true]
            (demoReceiver 8))
     = [Receiver.Download "f" [1; 2; 3; 4]; Receiver.NotifyTransferComplete]
  /\ (let stored es :=
        Receiver.rData <$>
          ((Receiver.db (fst (Receiver.run noDecrypt false es (demoReceiver 8))))
             ≫= (fun d => Receiver.committed d !! "ABC123_f_8_0")) in
      stored [Receiver.EFrame frameA; Receiver.EPutDone true]
      = Some [1; 2; 3; 4]
      /\ stored [Receiver.EFrame frameA; Receiver.EPutDone true;
                 Receiver.EFrame frameB; Receiver.EPutDone true]
         = Some [9; 9; 9; 9]).
Proof.
  split; [intros; apply acceptChunk_counts_duplicates|].
  split; [vm_compute; repeat split; reflexivity|].
  split; [vm_compute; reflexivity|].
  vm_compute; split; reflexivity.
Qed.

(** C6, as stated, fails for the first kind of framing error: a 3-byte
    buffer is dropped without any RETRANSMIT_REQUEST, with both channels
    open. *)
Lemma C6_counterexample_short_frame :
  (length [7; 7; 7] < 16)%nat
  /\ Receiver.controlOpen (demoReceiver 8) = true
  /\ Receiver.handleBinaryChunk noDecrypt false [7; 7; 7] (demoReceiver 8)
     = (demoReceiver 8, []).
Proof. split; [cbn; lia|]. split; reflexivity. Qed.

Lemma C6_framing_errors_witness :
  Receiver.handleBinaryChunk noDecrypt false [7; 7; 7] (demoReceiver 8)
  = (demoReceiver 8, [])
  /\ Receiver.handleBinaryChunk noDecrypt false frameBad (demoReceiver 8)
     = (demoReceiver 8,
        [Receiver.Send Receiver.OnControl (Receiver.RETRANSMIT_REQUEST [0])]).
Proof.
  split.
  - apply (C6_framing_errors noDecrypt false [7; 7; 7] (demoReceiver 8)).
    cbn. lia.
  - destruct (C6_framing_errors noDecrypt false frameBad (demoReceiver 8))
      as (_ & H & _).
    destruct (H ltac:(cbn; lia)) as (h & Hh & Hr).
    vm_compute in Hh. injection Hh as <-.
    rewrite Hr; [reflexivity|]. right. vm_compute. discriminate.
Defined.

Lemma C8_expectedSeq_monotone_witness :
  Legacy.dSeq lateFrame < Legacy.expectedSeq demoLegacy
  /\ Legacy.onData noDecrypt false lateFrame (fun _ => true) demoLegacy
     = (demoLegacy, [], Legacy.Returned).
Proof.
  assert (Legacy.dSeq lateFrame < Legacy.expectedSeq demoLegacy) as Hlate
    by (cbn; lia).
  split; [exact Hlate|].
  destruct (C8_expectedSeq_monotone noDecrypt false lateFrame
              (fun _ => true) demoLegacy) as (_ & _ & H & _).
  destruct (H Hlate) as (_ & _ & Hsame).
  destruct (Hsame eq_refl) as (H1 & H2 & H3).
  destruct (Legacy.onData noDecrypt false lateFrame (fun _ => true) demoLegacy)
    as [[st' out] e].
  cbn [fst snd] in H1, H2, H3. by rewrite H1, H2, H3.
Defined.



(** C10 (the code departs from the claim): in the states ["assembling"]
    and ["completed"] a call of [assembleFile] returns at once (first
    part; second part: the same for the timer that makes the call), but
    [this.state] does not stay there: [handleError] overwrites it with
    ["error"] in any state (third part), and the next call passes the
    guard. With two assembly timers pending and an ERROR from the peer
    between them, the second call starts a second assembly while the
    first still reads the store (fourth part), and when both reads have
    completed the file has been handed to the browser twice (fifth
    part). *)
Theorem C10_error_reopens_assembly :
  (forall (key : Type) (r : Receiver.t (key := key)),
      Receiver.state_ r = Receiver.Assembling
      \/ Receiver.state_ r = Receiver.Completed ->
      Receiver.assembleFile r = (r, []))
  /\ (forall (key : Type)
             (dec : key -> list Z -> list Z -> option (list Z))
             (secure : bool) (r : Receiver.t (key := key)) (n : nat),
         Receiver.state_ r = Receiver.Assembling
         \/ Receiver.state_ r = Receiver.Completed ->
         Receiver.assembleTimers r = S n ->
         Receiver.step dec secure Receiver.EAssembleTimer r
         = (Receiver.set_assembleTimers n r, []))
  /\ (forall (key : Type)
             (dec : key -> list Z -> list Z -> option (list Z))
             (secure : bool) (r : Receiver.t (key := key))
             (message : string),
         Receiver.state_
           (fst (Receiver.step dec secure (Receiver.EError message) r))
         = Receiver.Error)
  /\ (let r := fst (Receiver.run noDecrypt false twoTimers
                      (freshReceiver "ABC123" true true)) in
      Receiver.state_ r = Receiver.Assembling
      /\ Receiver.awaitingDbRead r = 2%nat)
  /\ List.filter isDownload
       (snd (Receiver.run noDecrypt false
               (twoTimers ++ [Receiver.EReadDone true;
                              Receiver.EReadDone true])
               (freshReceiver "ABC123" true true)))
     = [Receiver.Download "f" [1; 2]; Receiver.Download "f" [1; 2]].
Proof.
  split; [intros; by apply assembleFile_guard|]. split.
  - intros key dec secure r n Hs Hn. cbn [Receiver.step]. rewrite Hn.
    by apply assembleFile_guard.
  - split; [done|]. split; [vm_compute; done|]. vm_compute. reflexivity.
Qed.

(* ===================================================================== *)
(** * Further properties of the code *)
(* ===================================================================== *)

(** ** The other frames of packet.js *)

Section CodecFacts.
Import DataView Packet.

Lemma overwrite_app (buf rest bs : list Z) :
  length buf = length bs -> overwrite (buf ++ rest) bs = Some (bs ++ rest).
Proof.
  revert buf. induction bs as [|b bs IH]; intros [|x buf] Hlen;
    cbn in Hlen; try lia; cbn [overwrite app]; [done|].
  rewrite IH by lia. done.
Qed.

Lemma write_app (pre buf bs : list Z) (off : nat) :
  write (pre ++ buf) (length pre + off) bs = (pre ++.) <$> write buf off bs.
Proof.
  induction pre as [|x pre IH]; cbn [length Nat.add app write].
  - by destruct (write buf off bs).
  - rewrite IH. by destruct (write buf off bs).
Qed.

Lemma write_at (pre buf rest bs : list Z) :
  length buf = length bs ->
  write (pre ++ buf ++ rest) (length pre) bs = Some (pre ++ bs ++ rest).
Proof.
  intros Hlen. rewrite <- (Nat.add_0_r (length pre)), write_app.
  cbn [write]. destruct bs; [destruct buf; [done | cbn in Hlen; lia]|].
  by rewrite overwrite_app.
Qed.

Lemma length_be32 (v : Z) : length (be32 v) = 4%nat.
Proof. reflexivity. Qed.

(** Reading back what was laid out. *)
Lemma getUint8_app (pre buf : list Z) (off : nat) :
  getUint8 (pre ++ buf) (length pre + off) = getUint8 buf off.
Proof.
  unfold getUint8. rewrite lookup_app_r by lia. f_equal. lia.
Qed.

Lemma getUint32_app (pre buf : list Z) (off : nat) :
  getUint32 (pre ++ buf) (length pre + off) = getUint32 buf off.
Proof.
  induction pre as [|x pre IH]; [done|].
  rewrite <- IH. reflexivity.
Qed.

Lemma getUint8_at (pre rest : list Z) (v : Z) :
  0 <= v < 256 -> getUint8 (pre ++ be8 v ++ rest) (length pre) = Some v.
Proof.
  intros Hv. rewrite <- (Nat.add_0_r (length pre)), getUint8_app.
  cbn. by rewrite Z.mod_small.
Qed.

Lemma getUint32_at (pre rest : list Z) (v : Z) :
  0 <= v < 4294967296 ->
  getUint32 (pre ++ be32 v ++ rest) (length pre) = Some v.
Proof.
  intros Hv. rewrite <- (Nat.add_0_r (length pre)), getUint32_app.
  unfold getUint32, be32. cbn [app lookup list_lookup mbind option_bind Nat.add].
  f_equal. by apply be32_decode.
Qed.

Lemma slice_at (pre mid rest : list Z) :
  slice (pre ++ mid ++ rest) (length pre) (length pre + length mid) = mid.
Proof.
  unfold slice. rewrite drop_app_length.
  replace (length pre + length mid - length pre)%nat with (length mid) by lia.
  by rewrite take_app_length.
Qed.

Lemma getUint32_be32 (pre rest : list Z) (v : Z) :
  getUint32 (pre ++ be32 v ++ rest) (length pre) = Some (v mod 4294967296).
Proof.
  assert (be32 v = be32 (v mod 4294967296)) as ->.
  { unfold be32. by rewrite Z.mod_mod. }
  apply getUint32_at. apply Z.mod_pos_bound. lia.
Qed.

Lemma alloc_add (a b : nat) : alloc (a + b) = alloc a ++ alloc b.
Proof. apply replicate_add. Qed.

Lemma length_alloc (n : nat) : length (alloc n) = n.
Proof. apply length_replicate. Qed.

(** The five-byte frame: the type, then the number as 32 bits. *)
Lemma five_bytes (t seq : Z) :
  (b ← setUint8 (alloc 5) 0 t; setUint32 b 1 seq)
  = Some (be8 t ++ be32 seq).
Proof. reflexivity. Qed.

Lemma parse_five (t seq : Z) :
  0 <= t < 256 ->
  parsePacket (be8 t ++ be32 seq)
  = (if t =? ACK then Some (PAck (seq mod 4294967296))
     else if t =? DATA then None
     else if t =? VIDEO_DATA then None
     else if t =? SACK then None
     else if t =? FEC then Some (PFec (seq mod 4294967296) [])
     else Some (POther t (seq mod 4294967296))).
Proof.
  intros Ht. unfold parsePacket.
  assert (getUint8 (be8 t ++ be32 seq) 0 = Some t) as ->
    by apply (getUint8_at [] (be32 seq) t Ht).
  assert (getUint32 (be8 t ++ be32 seq) 1 = Some (seq mod 4294967296)) as ->
    by apply (getUint32_be32 (be8 t) [] seq).
  cbn [mbind option_bind].
  repeat case_match; try done.
Qed.

(** An ACK frame built for any number parses back as an ACK whose
    sequence number is that number reduced to 32 bits. *)
Theorem ack_packet_roundtrip (seq : Z) :
  buildAckPacket seq ≫= parsePacket = Some (PAck (seq mod 4294967296)).
Proof.
  unfold buildAckPacket. rewrite five_bytes. cbn [mbind option_bind].
  by rewrite parse_five.
Qed.

(** A control frame built by [buildControlPacket] is five bytes whose
    type byte is 7 for RESUME, 6 for END and 0 for any other name;
    [parsePacket] returns it as a bare type and sequence number. *)
Theorem control_packet_parses_as_other (typeStr : string) (seq : Z) :
  buildControlPacket typeStr seq ≫= parsePacket
  = Some (POther (if String.eqb typeStr "RESUME" then 7
                  else if String.eqb typeStr "END" then 6 else 0)
                 (seq mod 4294967296)).
Proof.
  unfold buildControlPacket. cbn [Nat.add]. rewrite five_bytes.
  cbn [mbind option_bind].
  rewrite parse_five by (repeat case_match; done).
  repeat case_match; done.
Qed.

Lemma buildFecPacket_layout (group : Z) (payload : list Z) :
  buildFecPacket group payload = Some (be8 FEC ++ be32 group ++ payload).
Proof.
  unfold buildFecPacket, setUint8, setUint32, alloc, be8, be32.
  cbn [Nat.add replicate write overwrite mbind option_bind fmap option_fmap
       option_map app].
  rewrite overwrite_replicate. reflexivity.
Qed.

(** A FEC frame parses back to its group number (reduced to 32 bits)
    and exactly the payload it was built from, whatever its length. *)
Theorem fec_packet_roundtrip (group : Z) (payload : list Z) :
  buildFecPacket group payload ≫= parsePacket
  = Some (PFec (group mod 4294967296) payload).
Proof.
  rewrite buildFecPacket_layout. cbn [mbind option_bind].
  unfold parsePacket.
  assert (getUint8 (be8 FEC ++ be32 group ++ payload) 0 = Some FEC) as ->
    by (by apply (getUint8_at [] (be32 group ++ payload) FEC)).
  assert (getUint32 (be8 FEC ++ be32 group ++ payload) 1
          = Some (group mod 4294967296)) as ->
    by apply (getUint32_be32 (be8 FEC) payload group).
  cbn [mbind option_bind]. cbn [Z.eqb FEC ACK DATA VIDEO_DATA SACK Pos.eqb].
  do 2 f_equal. unfold slice. cbn [be8 be32 app drop length].
  apply take_ge. lia.
Qed.

Lemma write_end (pre buf bs : list Z) :
  length buf = length bs -> write (pre ++ buf) (length pre) bs = Some (pre ++ bs).
Proof.
  intros Hlen. pose proof (write_at pre buf [] bs Hlen) as E.
  by rewrite !app_nil_r in E.
Qed.

Lemma buildDataPacket_layout (seq : Z) (iv payload : list Z) :
  buildDataPacket seq iv payload
  = Some (be8 DATA ++ be32 seq ++ be32 (Z.of_nat (length iv)) ++ iv
          ++ be32 (Z.of_nat (length payload)) ++ payload).
Proof.
  unfold buildDataPacket.
  replace (1 + 4 + 4 + length iv + 4 + length payload)%nat
    with (9 + (length iv + (4 + length payload)))%nat by lia.
  rewrite !alloc_add.
  set (n := Z.of_nat (length payload)).
  set (hd := be8 DATA ++ be32 seq ++ be32 (Z.of_nat (length iv))).
  set (R := alloc (length iv) ++ alloc 4 ++ alloc (length payload)).
  change (setUint8 (alloc 9 ++ R) 0 DATA) with (Some (be8 DATA ++ alloc 8 ++ R)).
  cbn [mbind option_bind].
  change (setUint32 (be8 DATA ++ alloc 8 ++ R) 1 seq)
    with (Some (be8 DATA ++ be32 seq ++ alloc 4 ++ R)).
  cbn [mbind option_bind].
  change (setUint32 (be8 DATA ++ be32 seq ++ alloc 4 ++ R) 5 (Z.of_nat (length iv)))
    with (Some (hd ++ R)).
  cbn [mbind option_bind].
  assert (write (hd ++ R) 9 iv
          = Some (hd ++ iv ++ alloc 4 ++ alloc (length payload))) as ->
    by (apply (write_at hd (alloc (length iv))); apply length_alloc).
  cbn [mbind option_bind].
  assert (setUint32 (hd ++ iv ++ alloc 4 ++ alloc (length payload))
                    (9 + length iv) n
          = Some (hd ++ iv ++ be32 n ++ alloc (length payload))) as ->
    by (apply (write_at (hd ++ iv) (alloc 4) (alloc (length payload)) (be32 n));
        reflexivity).
  cbn [mbind option_bind].
  replace (9 + length iv + 4)%nat with (length (hd ++ iv ++ be32 n))
    by (rewrite !length_app; cbn; lia).
  replace (hd ++ iv ++ be32 n ++ alloc (length payload))
    with ((hd ++ iv ++ be32 n) ++ alloc (length payload))
    by (by rewrite <- !app_assoc).
  rewrite write_end by apply length_alloc.
  f_equal. subst hd. by rewrite <- !app_assoc.
Qed.

(** A DATA frame built from a sequence number, an IV and a payload,
    both shorter than 2^32 bytes, parses back to the same IV and payload and
    the sequence number reduced to 32 bits. *)
Theorem data_packet_roundtrip (seq : Z) (iv payload : list Z) :
  Z.of_nat (length iv) < 4294967296 ->
  Z.of_nat (length payload) < 4294967296 ->
  buildDataPacket seq iv payload ≫= parsePacket
  = Some (PData (seq mod 4294967296) iv payload).
Proof.
  intros Hiv Hp. rewrite buildDataPacket_layout. cbn [mbind option_bind].
  set (ni := Z.of_nat (length iv)). set (n := Z.of_nat (length payload)).
  set (buf := be8 DATA ++ be32 seq ++ be32 ni ++ iv ++ be32 n ++ payload).
  unfold parsePacket.
  assert (getUint8 buf 0 = Some DATA) as ->
    by (by apply (getUint8_at [] (be32 seq ++ be32 ni ++ iv ++ be32 n ++ payload) DATA)).
  assert (getUint32 buf 1 = Some (seq mod 4294967296)) as ->
    by apply (getUint32_be32 (be8 DATA) (be32 ni ++ iv ++ be32 n ++ payload) seq).
  assert (getUint32 buf 5 = Some ni) as ->.
  { pose proof (getUint32_be32 (be8 DATA ++ be32 seq)
                  (iv ++ be32 n ++ payload) ni) as E.
    rewrite Z.mod_small in E by lia. exact E. }
  cbn [mbind option_bind]. cbn [Z.eqb DATA ACK Pos.eqb].
  subst ni. rewrite Nat2Z.id.
  assert (getUint32 buf (9 + length iv) = Some n) as ->.
  { pose proof (getUint32_be32
                  (be8 DATA ++ be32 seq ++ be32 (Z.of_nat (length iv)) ++ iv)
                  payload n) as E.
    rewrite Z.mod_small in E by lia.
    exact E. }
  cbn [mbind option_bind]. subst n. rewrite Nat2Z.id.
  do 2 f_equal.
  - apply (slice_at (be8 DATA ++ be32 seq ++ be32 (Z.of_nat (length iv))) iv
             (be32 (Z.of_nat (length payload)) ++ payload)).
  - pose proof (slice_at (be8 DATA ++ be32 seq ++ be32 (Z.of_nat (length iv)) ++ iv
                            ++ be32 (Z.of_nat (length payload))) payload []) as E.
    rewrite app_nil_r in E.
    replace (9 + length iv + 4)%nat
      with (length (be8 DATA ++ be32 seq ++ be32 (Z.of_nat (length iv)) ++ iv
                    ++ be32 (Z.of_nat (length payload))))
      by (rewrite !length_app; cbn; lia).
    subst buf. etrans; [|exact E]. by rewrite <- !app_assoc.
Qed.

Lemma data_packet_roundtrip_witness :
  buildDataPacket 4294967297 [1; 2; 3] [10; 20] ≫= parsePacket
  = Some (PData 1 [1; 2; 3] [10; 20]).
Proof.
  apply (data_packet_roundtrip 4294967297 [1; 2; 3] [10; 20]); cbn; lia.
Defined.

(** The ranges of a SACK frame, eight bytes each. *)
Lemma sack_fold (ranges : list (Z * Z)) (pre : list Z) :
  fold_left
    (fun acc r =>
       '(b, off) ← acc;
       b ← setUint32 b off (fst r);
       b ← setUint32 b (off + 4) (snd r);
       Some (b, (off + 8)%nat))
    ranges (Some (pre ++ alloc (length ranges * 8), length pre))
  = Some (pre ++ (ranges ≫= fun r => be32 (fst r) ++ be32 (snd r)),
          (length pre + length ranges * 8)%nat).
Proof.
  revert pre. induction ranges as [|[s e] ranges IH]; intros pre.
  - cbn. rewrite app_nil_r. do 2 f_equal. lia.
  - cbn [fold_left length fst snd].
    change (S (length ranges) * 8)%nat with (4 + (4 + length ranges * 8))%nat.
    rewrite !alloc_add.
    cbn [mbind option_bind].
    assert (setUint32 (pre ++ alloc 4 ++ alloc 4 ++ alloc (length ranges * 8))
                      (length pre) s
            = Some (pre ++ be32 s ++ alloc 4 ++ alloc (length ranges * 8))) as ->
      by (by apply write_at).
    cbn [mbind option_bind].
    assert (setUint32 (pre ++ be32 s ++ alloc 4 ++ alloc (length ranges * 8))
                      (length pre + 4) e
            = Some (pre ++ be32 s ++ be32 e ++ alloc (length ranges * 8))) as ->.
    { pose proof (write_at (pre ++ be32 s) (alloc 4)
                    (alloc (length ranges * 8)) (be32 e) eq_refl) as E.
      rewrite length_app, <- !app_assoc in E. exact E. }
    cbn [mbind option_bind].
    pose proof (IH (pre ++ be32 s ++ be32 e)) as E.
    rewrite !length_app, <- !app_assoc in E.
    replace (length pre + 8)%nat
      with (length pre + (length (be32 s) + length (be32 e)))%nat by (cbn; lia).
    rewrite E. f_equal.
    apply pair_equal_spec; split; [|cbn; lia].
    cbn [mbind list_bind fst snd]. by rewrite <- !app_assoc.
Qed.

Lemma parseRanges_body (ranges : list (Z * Z)) (pre rest : list Z) :
  parseRanges
    (pre ++ (ranges ≫= fun r => be32 (fst r) ++ be32 (snd r)) ++ rest)
    (length pre) (length ranges)
  = Some (map (fun r => (fst r mod 4294967296, snd r mod 4294967296)) ranges).
Proof.
  revert pre. induction ranges as [|[s e] ranges IH]; intros pre; [done|].
  cbn [length parseRanges mbind list_bind fst snd map].
  rewrite <- !app_assoc.
  rewrite getUint32_be32. cbn [mbind option_bind].
  pose proof (getUint32_be32 (pre ++ be32 s)
     ((ranges ≫= fun r => be32 (fst r) ++ be32 (snd r)) ++ rest) e) as E.
  rewrite length_app, <- !app_assoc in E. cbn [length be32] in E.
  cbn [be32 length]. rewrite E. cbn [mbind option_bind].
  pose proof (IH (pre ++ be32 s ++ be32 e)) as E'.
  rewrite !length_app, <- !app_assoc in E'. cbn [length be32] in E'.
  replace (length pre + 8)%nat with (length pre + (4 + 4))%nat by lia.
  cbn [be32] in E'. rewrite E'. reflexivity.
Qed.

(** A SACK frame with fewer than 2^32 ranges parses back to the
    cumulative acknowledgement and the ranges in order, every number reduced
    to 32 bits. *)
Theorem sack_packet_roundtrip (cumulativeAck : Z) (ranges : list (Z * Z)) :
  Z.of_nat (length ranges) < 4294967296 ->
  buildSackPacket cumulativeAck ranges ≫= parsePacket
  = Some (PSack (cumulativeAck mod 4294967296)
            (map (fun r => (fst r mod 4294967296, snd r mod 4294967296))
                 ranges)).
Proof.
  intros Hn. unfold buildSackPacket.
  set (n := Z.of_nat (length ranges)).
  set (hd := be8 SACK ++ be32 cumulativeAck ++ be32 n).
  replace (1 + 4 + 4 + length ranges * 8)%nat
    with (9 + length ranges * 8)%nat by lia.
  rewrite alloc_add.
  set (R := alloc (length ranges * 8)).
  change (setUint8 (alloc 9 ++ R) 0 SACK) with (Some (be8 SACK ++ alloc 8 ++ R)).
  cbn [mbind option_bind].
  change (setUint32 (be8 SACK ++ alloc 8 ++ R) 1 cumulativeAck)
    with (Some (be8 SACK ++ be32 cumulativeAck ++ alloc 4 ++ R)).
  cbn [mbind option_bind].
  change (setUint32 (be8 SACK ++ be32 cumulativeAck ++ alloc 4 ++ R) 5 n)
    with (Some (hd ++ R)).
  cbn [mbind option_bind].
  change 9%nat with (length hd). subst R.
  rewrite sack_fold. cbn [fmap option_fmap option_map fst mbind option_bind].
  set (body := ranges ≫= fun r => be32 (fst r) ++ be32 (snd r)).
  unfold parsePacket.
  assert (getUint8 (hd ++ body) 0 = Some SACK) as ->
    by (by apply (getUint8_at [] (be32 cumulativeAck ++ be32 n ++ body) SACK)).
  assert (getUint32 (hd ++ body) 1 = Some (cumulativeAck mod 4294967296)) as ->
    by apply (getUint32_be32 (be8 SACK) (be32 n ++ body) cumulativeAck).
  assert (getUint32 (hd ++ body) 5 = Some n) as ->.
  { pose proof (getUint32_be32 (be8 SACK ++ be32 cumulativeAck) body n) as E.
    rewrite Z.mod_small in E by lia. exact E. }
  cbn [mbind option_bind]. cbn [Z.eqb SACK DATA ACK VIDEO_DATA Pos.eqb].
  subst n. rewrite Nat2Z.id.
  pose proof (parseRanges_body ranges hd []) as E.
  rewrite app_nil_r in E. fold body in E.
  change 9%nat with (length hd). rewrite E. reflexivity.
Qed.

Lemma sack_packet_roundtrip_witness :
  buildSackPacket 9 [(11, 12); (20, 4294967296)] ≫= parsePacket
  = Some (PSack 9 [(11, 12); (20, 0)]).
Proof.
  apply (sack_packet_roundtrip 9 [(11, 12); (20, 4294967296)]); cbn; lia.
Defined.

End CodecFacts.

(** ** The send loop (protocol.js), continued *)

Section SenderMore.
Import Crypto Sender.
Context {key : Type}.
Variable gcm_encrypt : key -> list Z -> list Z -> list Z.
Variable IS_SECURE : bool.

Abbreviation sendTurn := (Sender.sendTurn gcm_encrypt IS_SECURE).
Abbreviation sendLoop := (Sender.sendLoop gcm_encrypt IS_SECURE).
Abbreviation trySend := (Sender.trySend gcm_encrypt IS_SECURE).

Lemma find_first {A} (p : A -> bool) (l : list A) (x : A) :
  List.find p l = Some x ->
  exists l1 l2, l = l1 ++ x :: l2 /\ p x = true
                /\ Forall (fun y => p y = false) l1.
Proof.
  induction l as [|a l IH]; [done|]. cbn [List.find].
  destruct (p a) eqn:Ha.
  - intros [= ->]. by exists [], l.
  - intros (l1 & l2 & -> & Hx & Hl1)%IH.
    exists (a :: l1), l2. repeat split; [done|]. by constructor.
Qed.

Lemma scan_covers (n a idx : nat) :
  (idx < n)%nat ->
  In idx (map (fun attempts => ((a + attempts) mod n)%nat) (seq 0 n)).
Proof.
  intros Hidx. apply in_map_iff.
  exists ((idx + n - a mod n) mod n)%nat. split.
  - rewrite Nat.Div0.add_mod_idemp_r.
    pose proof (Nat.div_mod_eq a n) as Ha.
    pose proof (Nat.mod_upper_bound a n ltac:(lia)) as Hlt.
    symmetry. apply (Nat.mod_unique _ _ (a / n + 1)); lia.
  - apply in_seq. pose proof (Nat.mod_upper_bound (idx + n - a mod n) n). lia.
Qed.

(** The scan returns the first channel, counting round-robin from
    [activeChannelIndex], that is open and below [MAX_BUFFER]; it returns
    none exactly when there is none among the [n] channels. *)
Lemma pickChannel_Some (n a idx : nat) (chans : list channel) :
  pickChannel n a chans = Some idx ->
  exists attempts c,
    (attempts < n)%nat /\ idx = ((a + attempts) mod n)%nat /\ (idx < n)%nat
    /\ chans !! idx = Some c /\ isOpen c = true
    /\ bufferedAmount c < MAX_BUFFER
    /\ forall earlier c',
         (earlier < attempts)%nat ->
         chans !! ((a + earlier) mod n)%nat = Some c' ->
         isOpen c' = false \/ MAX_BUFFER <= bufferedAmount c'.
Proof.
  unfold pickChannel. intros (l1 & l2 & Hl & Hp & Hl1)%find_first.
  destruct (chans !! idx) as [c|] eqn:Hc; [|done].
  apply andb_true_iff in Hp as [Ho Hb%Z.ltb_lt].
  assert (length l1 < n)%nat as Hlen.
  { apply (f_equal length) in Hl.
    rewrite length_map, length_seq, length_app in Hl. cbn in Hl. lia. }
  assert (forall i, (i < n)%nat ->
            map (fun t => ((a + t) mod n)%nat) (seq 0 n) !! i
            = Some ((a + i) mod n)%nat) as Hnth.
  { intros i Hi. rewrite list_lookup_fmap, lookup_seq_lt by done. done. }
  assert (idx = ((a + length l1) mod n)%nat) as Hidx.
  { pose proof (Hnth (length l1) Hlen) as E. rewrite Hl in E.
    rewrite lookup_app_r, Nat.sub_diag in E by lia. cbn in E. congruence. }
  exists (length l1), c. repeat split; try done.
  - rewrite Hidx. apply Nat.mod_upper_bound. lia.
  - intros t c' Ht Hc'.
    pose proof (Hnth t ltac:(lia)) as E. rewrite Hl in E.
    rewrite lookup_app_l in E by done.
    pose proof (Forall_lookup_1 _ _ _ _ Hl1 E) as Hf.
    cbn in Hf. rewrite Hc' in Hf. unfold chanReady in Hf.
    apply andb_false_iff in Hf as [Hf|Hf%Z.ltb_ge]; [by left|by right].
Qed.

Lemma pickChannel_None (n a : nat) (chans : list channel) :
  pickChannel n a chans = None <->
  forall idx c, (idx < n)%nat -> chans !! idx = Some c -> chanReady c = false.
Proof.
  unfold pickChannel. split.
  - intros Hnone idx c Hidx Hc.
    pose proof (find_none _ _ Hnone idx (scan_covers n a idx Hidx)) as Hf.
    cbn in Hf. by rewrite Hc in Hf.
  - intros Hall.
    destruct (List.find _ _) as [idx|] eqn:Hf; [|done].
    apply pickChannel_Some in Hf as (t & c & _ & _ & Hidx & Hc & Ho & Hb & _).
    specialize (Hall idx c Hidx Hc). unfold chanReady in Hall.
    rewrite Ho in Hall. cbn in Hall. apply Z.ltb_ge in Hall. lia.
Qed.

Lemma sendLoop_unfold (n : nat) (file : list Z) (script : list observation)
    (st : state) :
  sendLoop n file script st
  = if Z.of_nat (length file) <=? fileOffset st
    then (with_flags (isTransferring st) false st, [])
    else match script with
         | [] => (st, [])
         | o :: script =>
             match sendTurn n file o st with
             | Wait st => sendLoop n file script st
             | Rejected st => (st, [])
             end
         end.
Proof. by destruct script. Qed.

(** While every channel is closed or holds [MAX_BUFFER] bytes or more, the
    loop sends nothing and changes nothing: it stays suspended with
    [isSending] set. *)
Theorem sendLoop_waits_while_full (n : nat) (file : list Z)
    (script : list observation) (st : state) :
  (forall o idx c, o ∈ script -> (idx < n)%nat ->
                   oChannels o !! idx = Some c ->
                   isOpen c = false \/ MAX_BUFFER <= bufferedAmount c) ->
  fileOffset st < Z.of_nat (length file) ->
  sendLoop n file script st = (st, []).
Proof.
  intros Hfull Hlt. induction script as [|o script IH];
    rewrite sendLoop_unfold;
    destruct (Z.leb_spec (Z.of_nat (length file)) (fileOffset st)); try lia;
    [done|].
  assert (pickChannel n (activeChannelIndex st) (oChannels o) = None) as Hpick.
  { apply pickChannel_None. intros idx c Hidx Hc. unfold chanReady.
    destruct (Hfull o idx c) as [->|Hb]; [by left|done..|done|].
    apply andb_false_iff. right. by apply Z.ltb_ge. }
  unfold Sender.sendTurn. rewrite Hpick. apply IH.
  intros o' idx c Ho'. apply Hfull. by right.
Qed.

(** The pick of a turn: the channel chosen is the first one, counting
    round-robin from [activeChannelIndex], that is open and below
    [MAX_BUFFER] (every channel before it in that order is closed or
    full); the turn moves [activeChannelIndex] to the one after it, and
    ends there, at the [buildSonicPacket] call. *)
Theorem sendTurn_round_robin (n : nat) (file : list Z) (o : observation)
    (st : state) (idx : nat) :
  pickChannel n (activeChannelIndex st) (oChannels o) = Some idx ->
  (exists attempts c,
      (attempts < n)%nat
      /\ idx = ((activeChannelIndex st + attempts) mod n)%nat
      /\ oChannels o !! idx = Some c
      /\ isOpen c = true /\ bufferedAmount c < MAX_BUFFER
      /\ forall earlier c',
           (earlier < attempts)%nat ->
           oChannels o !! ((activeChannelIndex st + earlier) mod n)%nat
           = Some c' ->
           isOpen c' = false \/ MAX_BUFFER <= bufferedAmount c')
  /\ sendTurn n file o st = Rejected (with_active ((idx + 1) mod n)%nat st).
Proof.
  intros Hpick. split.
  - apply pickChannel_Some in Hpick
      as (t & c & ? & ? & _ & ? & ? & ? & Hfirst).
    by exists t, c.
  - unfold Sender.sendTurn. rewrite Hpick.
    by destruct (encryptStep _ _ _ _ _) as [[c e]|].
Qed.

(** The first turn that finds a ready channel ends the run: the state is
    the one the loop was entered with but for [activeChannelIndex], no
    frame was handed to [send], and what the channels do afterwards
    changes nothing. *)
Lemma sendLoop_first_pick (n : nat) (file : list Z)
    (script : list observation) (st : state) :
  fileOffset st < Z.of_nat (length file) ->
  (exists o idx c, o ∈ script /\ (idx < n)%nat
                   /\ oChannels o !! idx = Some c
                   /\ isOpen c = true /\ bufferedAmount c < MAX_BUFFER) ->
  exists i,
    forall more,
      sendLoop n file (script ++ more) st = (with_active i st, []).
Proof.
  intros Hlt. induction script as [|o script IH];
    intros (o' & idx & c & Ho' & Hidx & Hc & Hopen & Hbuf);
    [by apply elem_of_nil in Ho'|].
  destruct (pickChannel n (activeChannelIndex st) (oChannels o)) as [i|]
    eqn:Hpick.
  - exists ((i + 1) mod n)%nat. intros more.
    cbn [app]. rewrite sendLoop_unfold.
    destruct (Z.leb_spec (Z.of_nat (length file)) (fileOffset st)); [lia|].
    unfold Sender.sendTurn. rewrite Hpick.
    by destruct (encryptStep _ _ _ _ _) as [[d e]|].
  - apply elem_of_cons in Ho' as [->|Ho'].
    + exfalso. rewrite pickChannel_None in Hpick.
      specialize (Hpick idx c Hidx Hc). unfold chanReady in Hpick.
      rewrite Hopen in Hpick. cbn in Hpick. apply Z.ltb_ge in Hpick. lia.
    + destruct IH as [i Hi]; [by exists o', idx, c|].
      exists i. intros more. cbn [app]. rewrite sendLoop_unfold.
      destruct (Z.leb_spec (Z.of_nat (length file)) (fileOffset st)); [lia|].
      unfold Sender.sendTurn. rewrite Hpick. apply Hi.
Qed.

(** [trySend] neither reads nor writes [lastAck], [inflight],
    [dynamicWindowSize] or [credits]: changing them changes neither the
    frames sent nor the rest of the resulting state. *)
Theorem trySend_ignores_window (script : list observation) (st : state)
    (ack : Z) (pending : gmap Z (list Z)) (window credit : Z) :
  trySend script (with_window ack pending window credit st)
  = (with_window ack pending window credit (trySend script st).1,
     (trySend script st).2).
Proof.
  assert (forall n file o st,
            sendTurn n file o (with_window ack pending window credit st)
            = match sendTurn n file o st with
              | Wait s => Wait (with_window ack pending window credit s)
              | Rejected s =>
                  Rejected (with_window ack pending window credit s)
              end) as Hturn.
  { intros n file o s. destruct s. unfold Sender.sendTurn, encryptStep.
    cbn [with_window with_active activeChannelIndex fileOffset
         currentChunkSize nextSeq sharedKey_].
    destruct (pickChannel _ _ _); [|done].
    by destruct IS_SECURE; [destruct sharedKey_0|]. }
  assert (forall n file script st,
            sendLoop n file script (with_window ack pending window credit st)
            = (with_window ack pending window credit
                 (sendLoop n file script st).1,
               (sendLoop n file script st).2)) as Hloop.
  { intros n file sc. induction sc as [|o sc IH]; intros s;
      rewrite !(sendLoop_unfold _ _ _ s), sendLoop_unfold;
      cbn [with_window fileOffset];
      destruct (_ <=? _); try done.
    rewrite Hturn. destruct (sendTurn n file o s) as [s1|s1]; [apply IH|done]. }
  unfold Sender.trySend. cbn [with_window currentFile isTransferring isSending].
  destruct (currentFile st) as [file|]; [|done].
  destruct (negb (isTransferring st) || isSending st); [done|].
  cbn [with_flags dataChannels dataChannel isTransferring].
  destruct (_ && _); [done|].
  apply (Hloop _ file script (with_flags (isTransferring st) true st)).
Qed.

End SenderMore.

Lemma sendLoop_waits_while_full_witness :
  Sender.sendLoop showIv false 1 [1; 2; 3] [fullTurn; fullTurn]
    (demoSender [1; 2; 3] Crypto.KeyInsecure)
  = (demoSender [1; 2; 3] Crypto.KeyInsecure, []).
Proof.
  apply sendLoop_waits_while_full; [|cbn; lia].
  intros o idx c Ho Hidx Hc. right.
  assert (o = fullTurn) as ->
    by (apply elem_of_cons in Ho as [->|Ho]; [done|];
        apply elem_of_cons in Ho as [->|Ho]; [done|];
        by apply elem_of_nil in Ho).
  destruct idx; [|lia]. cbn in Hc. injection Hc as <-. cbn. lia.
Defined.

Lemma sendTurn_round_robin_witness :
  Sender.sendTurn showIv false 3 [1; 2; 3] mixedTurn
    (Sender.with_active 1 (demoSender [1; 2; 3] Crypto.KeyInsecure))
  = Sender.Rejected
      (Sender.with_active 0
         (Sender.with_active 1 (demoSender [1; 2; 3] Crypto.KeyInsecure))).
Proof.
  apply (sendTurn_round_robin showIv false 3 [1; 2; 3] mixedTurn
           (Sender.with_active 1 (demoSender [1; 2; 3] Crypto.KeyInsecure))
           2).
  vm_compute. reflexivity.
Defined.

(** ** The receiver (receiver.js), continued *)

Section ReceiverMore.
Import Crypto DataView Receiver.
Context {key : Type}.
Variable gcm_decrypt : key -> list Z -> list Z -> option (list Z).
Variable IS_SECURE : bool.

Abbreviation handleBinaryChunk := (Receiver.handleBinaryChunk gcm_decrypt IS_SECURE).
Abbreviation step := (Receiver.step gcm_decrypt IS_SECURE).
Abbreviation run := (Receiver.run gcm_decrypt IS_SECURE).

Ltac rsimpl :=
  cbn [code metadata_ chunks receivedBytes state_ db transferId cryptoKey
       sharedKey_ readySent pendingAcks ackTimer assembleTimers
       awaitingDbRead cleaning controlOpen dcOpen
       set_state set_db set_acks set_assembleTimers set_awaiting set_cleaning
       set_received set_metadata set_channels set_sharedKey set_readySent
       committed requested fst snd] in *.

Lemma getUint16_app (pre buf : list Z) (off : nat) :
  getUint16 (pre ++ buf) (length pre + off) = getUint16 buf off.
Proof.
  induction pre as [|x pre IH]; [done|].
  rewrite <- IH. reflexivity.
Qed.

Lemma checksum_range (data : list Z) :
  0 <= Receiver.calculateChecksum data < 65536.
Proof.
  rewrite calculateChecksum_sum'. apply Z.mod_pos_bound. lia.
Qed.

(** The header fields of a frame in the receiver's layout. *)
Lemma parseHeader_sonicFrame (seq offset : Z) (payload : list Z)
    (isLast isEncrypted : bool) :
  0 <= seq < 4294967296 ->
  0 <= offset < 4294967296 ->
  Z.of_nat (length payload) < 4294967296 ->
  parseHeader (sonicFrame seq payload isLast offset isEncrypted)
  = Some {| hSeq := seq; hSize := Z.of_nat (length payload);
            hOffset := offset;
            hFlags := (if isLast then 1 else 0)
                      + (if isEncrypted then 2 else 0);
            hReserved := 0;
            hChecksum := Receiver.calculateChecksum payload |}.
Proof.
  intros Hseq Hoff Hlen. unfold parseHeader, sonicFrame.
  set (n := Z.of_nat (length payload)).
  set (fl := (if isLast then 1 else 0) + (if isEncrypted then 2 else 0)).
  set (ck := Receiver.calculateChecksum payload).
  pose proof (checksum_range payload) as Hck. fold ck in Hck.
  assert (getUint32 (be32 seq ++ be32 n ++ be32 offset ++ [fl] ++ [0]
                     ++ be16 ck ++ payload) 0 = Some seq) as ->
    by (by apply (getUint32_at [] _ seq)).
  assert (getUint32 (be32 seq ++ be32 n ++ be32 offset ++ [fl] ++ [0]
                     ++ be16 ck ++ payload) 4 = Some n) as ->
    by (apply (getUint32_at (be32 seq) _ n); lia).
  assert (getUint32 (be32 seq ++ be32 n ++ be32 offset ++ [fl] ++ [0]
                     ++ be16 ck ++ payload) 8 = Some offset) as ->
    by (by apply (getUint32_at (be32 seq ++ be32 n) _ offset)).
  cbn [mbind option_bind].
  assert (getUint16 (be32 seq ++ be32 n ++ be32 offset ++ [fl] ++ [0]
                     ++ be16 ck ++ payload) 14 = Some ck) as ->.
  { pose (pre := be32 seq ++ be32 n ++ be32 offset ++ [fl] ++ [0]).
    change 14%nat with (length pre + 0)%nat.
    change (be32 seq ++ be32 n ++ be32 offset ++ [fl] ++ [0] ++ be16 ck ++ payload)
      with (pre ++ be16 ck ++ payload).
    rewrite getUint16_app. unfold getUint16, be16.
    cbn [app lookup list_lookup mbind option_bind]. f_equal.
    by apply be16_decode. }
  reflexivity.
Qed.

Lemma length_sonicFrame (seq offset : Z) (payload : list Z)
    (isLast isEncrypted : bool) :
  length (sonicFrame seq payload isLast offset isEncrypted)
  = (16 + length payload)%nat.
Proof. unfold sonicFrame. rewrite !length_app. cbn. lia. Qed.

Lemma drop_sonicFrame (seq offset : Z) (payload : list Z)
    (isLast isEncrypted : bool) :
  drop 16 (sonicFrame seq payload isLast offset isEncrypted) = payload.
Proof. reflexivity. Qed.

Lemma flags_sonicFrame (isLast isEncrypted : bool) :
  let fl := (if isLast then 1 else 0) + (if isEncrypted then 2 else 0) in
  negb (Z.land fl 1 =? 0) = isLast /\ negb (Z.land fl 2 =? 0) = isEncrypted.
Proof. by destruct isLast, isEncrypted. Qed.

(** A frame whose header matches its payload passes every check. *)
Lemma handleBinaryChunk_sonicFrame (seq offset : Z) (payload : list Z)
    (isLast isEncrypted : bool) (r : t) :
  0 <= seq < 4294967296 ->
  0 <= offset < 4294967296 ->
  Z.of_nat (length payload) < 4294967296 ->
  isEncrypted && cryptoKey r = false ->
  handleBinaryChunk (sonicFrame seq payload isLast offset isEncrypted) r
  = acceptChunk
      {| hSeq := seq; hSize := Z.of_nat (length payload); hOffset := offset;
         hFlags := (if isLast then 1 else 0) + (if isEncrypted then 2 else 0);
         hReserved := 0; hChecksum := Receiver.calculateChecksum payload |}
      isLast payload r.
Proof.
  intros Hseq Hoff Hlen Hkey. unfold Receiver.handleBinaryChunk.
  rewrite parseHeader_sonicFrame by done.
  rewrite length_sonicFrame.
  destruct (Nat.ltb_spec (16 + length payload) 16); [lia|].
  cbn [hSize hFlags hSeq hChecksum].
  destruct (flags_sonicFrame isLast isEncrypted) as [-> ->].
  replace (Z.of_nat (16 + length payload)
           =? 16 + Z.of_nat (length payload)) with true
    by (symmetry; apply Z.eqb_eq; lia).
  cbn [negb]. rewrite subarray_payload;
    [|lia|rewrite length_sonicFrame; lia].
  rewrite drop_sonicFrame, Z.eqb_refl. cbn [negb]. by rewrite Hkey.
Qed.

(** A frame in the receiver's layout whose size field and checksum match
    its payload, and which is not decrypted (not flagged encrypted, or
    [cryptoKey] unset), is accepted: its sequence number is entered in
    [chunks] with the offset and flag of the header, [receivedBytes] grows
    by the payload length, a [put] of the payload as it came is issued,
    and the only thing that may be sent is one batch acknowledgement. *)
Theorem receiver_accepts_frame (seq offset : Z) (payload : list Z)
    (isLast isEncrypted : bool) (r : t) :
  0 <= seq < 4294967296 ->
  0 <= offset < 4294967296 ->
  Z.of_nat (length payload) < 4294967296 ->
  isEncrypted && cryptoKey r = false ->
  let r' := (handleBinaryChunk
               (sonicFrame seq payload isLast offset isEncrypted) r).1 in
  let out := (handleBinaryChunk
                (sonicFrame seq payload isLast offset isEncrypted) r).2 in
  chunks r' = <[seq := {| cOffset := offset;
                          cSize := Z.of_nat (length payload);
                          cIsLast := isLast |}]> (chunks r)
  /\ receivedBytes r' = receivedBytes r + Z.of_nat (length payload)
  /\ db r' = (d ← db r;
              Some {| committed := committed d;
                      requested := requested d ++
                        [{| rId := recordId (transferId r) seq;
                            rTransferId := transferId r; rSeq := seq;
                            rData := payload; rOffset := offset;
                            rSize := Z.of_nat (length payload);
                            rIsLast := isLast |}] |})
  /\ (out = [] \/ exists via acks n, out = [Send via (CHUNK_BATCH_ACK acks n)]).
Proof.
  intros Hseq Hoff Hlen Hkey. cbv zeta.
  rewrite handleBinaryChunk_sonicFrame by done.
  set (h := {| hSeq := seq; hSize := Z.of_nat (length payload);
               hOffset := offset;
               hFlags := (if isLast then 1 else 0)
                         + (if isEncrypted then 2 else 0);
               hReserved := 0;
               hChecksum := Receiver.calculateChecksum payload |}).
  pose proof (acceptChunk_fields h isLast payload r)
    as (_ & _ & _ & _ & Hbytes & Hchunks & _).
  pose proof (acceptChunk_acks h isLast payload r) as Hacks.
  split; [done|]. split; [done|]. split.
  - unfold acceptChunk, saveChunk, sendBatchAck. rsimpl.
    destruct (db r) as [d|] eqn:Hdb; rsimpl;
      repeat (case_match; rsimpl; simplify_eq); rewrite ?Hdb; reflexivity.
  - cbv zeta in Hacks. destruct (_ <=? _)%nat.
    + destruct Hacks as (_ & _ & ->). unfold sendControl.
      repeat case_match; eauto.
    + destruct Hacks as (_ & _ & ->). by left.
Qed.

(** No event assigns [cryptoKey], so a receiver never decrypts: what it
    does on any sequence of events does not depend on the cipher or on
    [IS_SECURE], and a payload flagged encrypted is stored as it came. *)
Theorem receiver_never_decrypts (es : list event) (c : string)
    (gcm_decrypt' : key -> list Z -> list Z -> option (list Z))
    (IS_SECURE' : bool) :
  cryptoKey (run es (create c)).1 = false
  /\ Receiver.run gcm_decrypt' IS_SECURE' es (create c) = run es (create c).
Proof.
  assert (forall e r, cryptoKey r = false ->
            cryptoKey (step e r).1 = false
            /\ Receiver.step gcm_decrypt' IS_SECURE' e r = step e r) as Hstep.
  { intros e r Hk. destruct e as [m|buf| | |ok|ok| |msg|isDc| |];
      cbn [Receiver.step].
    - split; [|done]. unfold handleMetadata. rsimpl.
      repeat (case_match; rsimpl); done.
    - unfold Receiver.handleBinaryChunk.
      destruct (_ <? _)%nat; [done|].
      destruct (parseHeader buf) as [h|]; [|done].
      destruct (negb (_ =? _)); [done|].
      destruct (subarray _ _ _) as [payload|]; [|done].
      destruct (negb (_ =? _)); [done|].
      rewrite Hk, !andb_false_r. split; [|done].
      unfold acceptChunk, saveChunk, sendBatchAck.
      repeat (case_match; rsimpl; simplify_eq); done.
    - split; [|done]. unfold sendBatchAck.
      repeat (case_match; rsimpl; simplify_eq); done.
    - split; [|done]. unfold assembleFile.
      repeat (case_match; rsimpl; simplify_eq); done.
    - split; [|done]. unfold putDone.
      repeat (case_match; rsimpl; simplify_eq); done.
    - split; [|done]. unfold assembleResume, handleError, cleanup.
      repeat (case_match; rsimpl; simplify_eq); done.
    - split; [|done]. unfold cleanupResume.
      repeat (case_match; rsimpl; simplify_eq); done.
    - split; [|done]. unfold handleError. by rsimpl.
    - split; [|done]. unfold onDataChannelOpen.
      repeat (case_match; rsimpl; simplify_eq); done.
    - split; [|done]. unfold onControlOpen.
      repeat (case_match; rsimpl; simplify_eq); done.
    - split; [|done]. unfold onDcClose, handleError.
      repeat (case_match; rsimpl; simplify_eq); done. }
  assert (forall es r, cryptoKey r = false ->
            cryptoKey (run es r).1 = false
            /\ Receiver.run gcm_decrypt' IS_SECURE' es r = run es r) as Hrun.
  { clear es. intros es. induction es as [|e es IH]; intros r Hk; [done|].
    cbn [Receiver.run]. destruct (Hstep e r Hk) as [Hk1 ->].
    destruct (step e r) as [r1 out1]. cbn [fst] in Hk1.
    destruct (IH r1 Hk1) as [Hk2 ->].
    by destruct (run es r1). }
  by apply Hrun.
Qed.

Lemma checksum_first_100 (data : list Z) :
  Receiver.calculateChecksum data
  = fold_left (fun sum b => Z.land (sum + b) 65535) (take 100 data) 0.
Proof.
  unfold Receiver.calculateChecksum. f_equal.
  destruct (Nat.le_gt_cases (length data) 100).
  - rewrite Nat.min_l by done. by rewrite !take_ge.
  - by rewrite Nat.min_r by lia.
Qed.

(** The checksum covers the first 100 payload bytes only: a frame whose
    payload was replaced by another of the same length with the same first
    100 bytes passes the check and the replaced payload is accepted. *)
Theorem checksum_blind_after_100 (seq offset : Z) (payload altered : list Z)
    (isLast isEncrypted : bool) (r : t) :
  0 <= seq < 4294967296 ->
  0 <= offset < 4294967296 ->
  Z.of_nat (length payload) < 4294967296 ->
  isEncrypted && cryptoKey r = false ->
  length altered = length payload ->
  take 100 altered = take 100 payload ->
  handleBinaryChunk
    (take 16 (sonicFrame seq payload isLast offset isEncrypted) ++ altered) r
  = acceptChunk
      {| hSeq := seq; hSize := Z.of_nat (length payload); hOffset := offset;
         hFlags := (if isLast then 1 else 0) + (if isEncrypted then 2 else 0);
         hReserved := 0; hChecksum := Receiver.calculateChecksum payload |}
      isLast altered r.
Proof.
  intros Hseq Hoff Hlen Hkey Hsame Hhead.
  assert (Receiver.calculateChecksum altered
          = Receiver.calculateChecksum payload) as Hck
    by (by rewrite !checksum_first_100, Hhead).
  assert (take 16 (sonicFrame seq payload isLast offset isEncrypted) ++ altered
          = sonicFrame seq altered isLast offset isEncrypted) as ->.
  { unfold sonicFrame. rewrite Hsame, Hck. reflexivity. }
  rewrite handleBinaryChunk_sonicFrame by (done || lia).
  by rewrite Hsame, Hck.
Qed.

(** The gap loop over an ascending list of distinct keys, none below the
    expected one. *)
Lemma gapStep_fold (l : list Z) (acc : list Z) (e : Z) :
  StronglySorted Z.lt l ->
  Forall (fun k => e <= k) l ->
  forall s,
    (s ∈ fst (fold_left gapStep l (acc, e)))
    <-> (s ∈ acc \/ (e <= s /\ (s ∉ l) /\ exists k, k ∈ l /\ s < k)).
Proof.
  intros Hs. revert acc e.
  induction Hs as [|k l Hs IH Hk]; intros acc e He s.
  - cbn. split; [by left|]. intros [?|(_ & _ & k & Hk & _)]; [done|].
    by apply elem_of_nil in Hk.
  - apply Forall_cons in He as [Hek He]. cbn [fold_left].
    assert (gapStep (acc, e) k = (acc ++ seqZ e (k - e), k + 1)) as ->.
    { unfold gapStep. destruct (Z.ltb_spec e k); [done|].
      assert (e = k) as -> by lia. rewrite Z.sub_diag. cbn.
      by rewrite app_nil_r. }
    rewrite IH; [|eapply Forall_impl; [exact Hk|]; cbn; intros; lia].
    rewrite elem_of_app, elem_of_seqZ.
    rewrite Forall_forall in Hk. split.
    + intros [[?|?]|(? & Hnin & k' & Hk' & ?)]; [by left|right..].
      * split; [lia|]. split; [|exists k; split; [by left|lia]].
        intros [->|Hin]%elem_of_cons; [lia|]. apply Hk in Hin. lia.
      * split; [lia|]. split; [|exists k'; split; [by right|done]].
        intros [->|Hin]%elem_of_cons; [lia|done].
    + intros [?|(? & Hnin & k' & Hk' & ?)]; [by left; left|].
      destruct (Z.lt_ge_cases s k); [left; right; lia|right].
      assert (s <> k) by (intros ->; apply Hnin; by left).
      split; [lia|]. split; [intros ?; apply Hnin; by right|].
      apply elem_of_cons in Hk' as [->|?]; [lia|]. by exists k'.
Qed.

Lemma sorted_keys (m : gmap Z chunkInfo) :
  let l := merge_sort Z.le (map fst (map_to_list m)) in
  StronglySorted Z.lt l /\ forall k, (k ∈ l) <-> is_Some (m !! k).
Proof.
  intros l.
  assert (map fst (map_to_list m) = (map_to_list m).*1) as E by done.
  assert (l ≡ₚ (map_to_list m).*1) as Hperm
    by (subst l; rewrite E; apply merge_sort_Permutation).
  split.
  - assert (NoDup l) as Hnd by (rewrite Hperm; apply NoDup_fst_map_to_list).
    assert (StronglySorted Z.le l) as Hs
      by (subst l; apply StronglySorted_merge_sort; apply _).
    clear -Hnd Hs. induction Hs as [|k l Hs IH Hk]; [constructor|].
    apply NoDup_cons in Hnd as [Hnin Hnd]. constructor; [by apply IH|].
    rewrite Forall_forall in Hk |- *. intros x Hx.
    specialize (Hk x Hx). assert (x <> k) by (by intros ->). lia.
  - intros k. rewrite Hperm, list_elem_of_fmap. split.
    + intros ([k' c] & -> & Hin). apply elem_of_map_to_list in Hin. by exists c.
    + intros [c Hc]. exists (k, c). split; [done|].
      by apply elem_of_map_to_list.
Qed.

Lemma missingChunks_iff (m : gmap Z chunkInfo) :
  (forall k, is_Some (m !! k) -> 0 <= k) ->
  forall s,
    (s ∈ missingChunks m)
    <-> (0 <= s /\ m !! s = None /\ exists k, s < k /\ is_Some (m !! k)).
Proof.
  intros Hpos s. unfold missingChunks.
  destruct (sorted_keys m) as [Hs Hin].
  rewrite gapStep_fold; [|done|].
  - split.
    + intros [Hnil|(? & Hnin & k & Hk & ?)]; [by apply elem_of_nil in Hnil|].
      split; [done|]. split.
      * apply eq_None_not_Some. by rewrite <- Hin.
      * exists k. split; [done|]. by apply Hin.
    + intros (? & Hnone & k & ? & Hk). right. split; [done|]. split.
      * rewrite Hin, Hnone. by intros [? ?].
      * exists k. split; [by apply Hin|done].
  - apply Forall_forall. intros k Hk. apply Hpos. by apply Hin.
Qed.

(** The gap check of [assembleFile]: a sequence number is reported
    missing exactly when it is not negative, absent from [chunks], and
    below some sequence number that is present. Chunks missing after the
    highest received one are never reported. *)
Theorem missingChunks_spec (m : gmap Z chunkInfo) :
  (forall k, is_Some (m !! k) -> 0 <= k) ->
  forall s,
    (s ∈ missingChunks m)
    <-> (0 <= s /\ m !! s = None /\ exists k, s < k /\ is_Some (m !! k)).
Proof. exact (missingChunks_iff m). Qed.

Lemma totalSize_fold (l : list record) (a : Z) :
  Forall (fun c => rSize c = Z.of_nat (length (rData c))) l ->
  fold_left (fun sum c => sum + rSize c) l a
  = a + Z.of_nat (length (concat (rData <$> l))).
Proof.
  intros Hl. revert a. induction Hl as [|c l Hc _ IH]; intros a.
  - cbn. lia.
  - cbn [fold_left fmap list_fmap concat]. rewrite IH, length_app, Hc. lia.
Qed.

Lemma combine_fold (l : list record) (pre : list Z) :
  Forall (fun c => rSize c = Z.of_nat (length (rData c))) l ->
  fold_left
    (fun acc c =>
       '(result, offset) ← acc;
       result ← write result (Z.to_nat offset) (rData c);
       Some (result, offset + rSize c))
    l (Some (pre ++ alloc (length (concat (rData <$> l))),
             Z.of_nat (length pre)))
  = Some (pre ++ concat (rData <$> l),
          Z.of_nat (length pre + length (concat (rData <$> l)))).
Proof.
  intros Hl. revert pre. induction Hl as [|c l Hc _ IH]; intros pre.
  - cbn. rewrite !app_nil_r. do 3 f_equal. lia.
  - cbn [fold_left fmap list_fmap concat mbind option_bind].
    rewrite length_app, alloc_add, Nat2Z.id.
    rewrite write_at by apply length_alloc.
    cbn [mbind option_bind].
    specialize (IH (pre ++ rData c)).
    rewrite length_app, <- !app_assoc in IH.
    replace (Z.of_nat (length pre) + rSize c)
      with (Z.of_nat (length pre + length (rData c))) by lia.
    rewrite IH. do 3 f_equal. lia.
Qed.

Lemma combineChunks_sized (sorted : list record) :
  Forall (fun c => rSize c = Z.of_nat (length (rData c))) sorted ->
  combineChunks sorted = Some (concat (rData <$> sorted)).
Proof.
  intros Hl. unfold combineChunks.
  rewrite totalSize_fold by done. rewrite Z.add_0_l, Nat2Z.id.
  pose proof (combine_fold sorted [] Hl) as E. cbn [app length] in E.
  change (Z.of_nat 0) with 0 in E. rewrite E. reflexivity.
Qed.

(** "Verify and Combine": when every record's [size] is the length of
    its [data], the result is the records' data laid end to end in the
    given order; the recorded offsets play no part. *)
Theorem combineChunks_concat (sorted : list record) :
  Forall (fun c => rSize c = Z.of_nat (length (rData c))) sorted ->
  combineChunks sorted = Some (concat (rData <$> sorted)).
Proof. exact (combineChunks_sized sorted). Qed.

Lemma run_app (es1 es2 : list event) (r : t) :
  run (es1 ++ es2) r
  = ((run es2 (run es1 r).1).1, (run es1 r).2 ++ (run es2 (run es1 r).1).2).
Proof.
  revert r. induction es1 as [|e es1 IH]; intros r.
  - cbn. by destruct (run es2 r).
  - cbn [app]. rewrite !run_cons, IH. cbn [fst snd]. by rewrite app_assoc.
Qed.

Lemma append_inj_r (p a b : string) : p +:+ a = p +:+ b -> a = b.
Proof. induction p as [|c p IH]; cbn; [done|]. intros [= ?]. by apply IH. Qed.

Lemma recordId_inj (tid : option string) (a b : Z) :
  recordId tid a = recordId tid b -> a = b.
Proof.
  unfold recordId. intros H%append_inj_r%append_inj_r.
  by apply (inj pretty) in H.
Qed.

(** A frame of an in-order arrival followed by the completion of its
    [put]. *)
Lemma frame_put (seq offset : Z) (c : list Z) (isLast : bool) (r : t)
    (C : gmap string record) :
  0 <= seq < 4294967296 ->
  0 <= offset < 4294967296 ->
  Z.of_nat (length c) < 4294967296 ->
  db r = Some {| committed := C; requested := [] |} ->
  let res := run [EFrame (sonicFrame seq c isLast offset false);
                  EPutDone true] r in
  db res.1
  = Some {| committed :=
              <[recordId (transferId r) seq :=
                  {| rId := recordId (transferId r) seq;
                     rTransferId := transferId r; rSeq := seq;
                     rData := c; rOffset := offset;
                     rSize := Z.of_nat (length c);
                     rIsLast := isLast |}]> C;
            requested := [] |}
  /\ chunks res.1 = <[seq := {| cOffset := offset;
                                cSize := Z.of_nat (length c);
                                cIsLast := isLast |}]> (chunks r)
  /\ metadata_ res.1 = metadata_ r
  /\ transferId res.1 = transferId r
  /\ state_ res.1 = state_ r
  /\ awaitingDbRead res.1 = awaitingDbRead r
  /\ (assembleTimers r <= assembleTimers res.1)%nat
  /\ (isLast = true -> (1 <= assembleTimers res.1)%nat)
  /\ List.filter isDownload res.2 = [].
Proof.
  intros Hseq Hoff Hlen Hdb res. subst res.
  rewrite !run_cons. cbn [Receiver.run Receiver.step fst snd].
  rewrite handleBinaryChunk_sonicFrame by done.
  unfold acceptChunk, saveChunk, sendBatchAck, sendControl, putDone.
  rsimpl. rewrite Hdb. rsimpl. cbn [app hSeq hOffset].
  repeat (case_match; rsimpl; cbn [app rId] in *; simplify_eq);
    cbn [committed requested] in *; simplify_eq; cbn [rId];
    repeat split; try done; try lia.
Qed.

Lemma recordsFrom_facts (tid : option string) (chunks : list (list Z))
    (seq offset : Z) :
  rData <$> recordsFrom tid seq offset chunks = chunks
  /\ Forall (fun c => rSize c = Z.of_nat (length (rData c))
                      /\ rTransferId c = tid
                      /\ rId c = recordId tid (rSeq c)
                      /\ seq <= rSeq c < seq + Z.of_nat (length chunks))
            (recordsFrom tid seq offset chunks)
  /\ StronglySorted (fun a b => rSeq a < rSeq b)
                    (recordsFrom tid seq offset chunks).
Proof.
  revert seq offset. induction chunks as [|c rest IH]; intros seq offset.
  - cbn. repeat split; constructor.
  - destruct (IH (seq + 1) (offset + Z.of_nat (length c))) as (IH1 & IH2 & IH3).
    cbn [recordsFrom fmap list_fmap rData]. split; [by rewrite IH1|]. split.
    + constructor; [cbn [length rSize rData rTransferId rId rSeq];
                    repeat split; lia|].
      eapply Forall_impl; [exact IH2|]. cbn [length]. intros x (?&?&?&?).
      repeat split; try done; lia.
    + constructor; [done|].
      eapply Forall_impl; [exact IH2|]. cbn. intros x (_&_&_&?). lia.
Qed.

Lemma filter_all {A} (p : A -> bool) (l : list A) :
  Forall (fun x => p x = true) l -> List.filter p l = l.
Proof.
  induction 1 as [|x l Hx _ IH]; [done|]. cbn. by rewrite Hx, IH.
Qed.

Lemma bySeq_trans : Transitive bySeq.
Proof. unfold bySeq. intros a b c. lia. Qed.

Lemma bySeq_total : Total bySeq.
Proof. unfold bySeq. intros a b. lia. Qed.

(** The state of the receiver after an in-order arrival. *)
Lemma arrival_run (chunks_ : list (list Z)) :
  forall (seq offset : Z) (r : t) (C : gmap string record)
         (recs : list record),
    db r = Some {| committed := C; requested := [] |} ->
    map_to_list C ≡ₚ (fun rec => (rId rec, rec)) <$> recs ->
    Forall (fun rec => rId rec = recordId (transferId r) (rSeq rec)
                       /\ rSeq rec < seq) recs ->
    0 <= seq ->
    seq + Z.of_nat (length chunks_) <= 4294967296 ->
    0 <= offset ->
    offset + Z.of_nat (length (concat chunks_)) < 4294967296 ->
    let res := run (arrival seq offset chunks_) r in
    exists C',
      db res.1 = Some {| committed := C'; requested := [] |}
      /\ map_to_list C'
         ≡ₚ (fun rec => (rId rec, rec))
            <$> (recs ++ recordsFrom (transferId r) seq offset chunks_)
      /\ (forall s, is_Some (chunks res.1 !! s)
                    <-> is_Some (chunks r !! s)
                        \/ seq <= s < seq + Z.of_nat (length chunks_))
      /\ metadata_ res.1 = metadata_ r
      /\ transferId res.1 = transferId r
      /\ state_ res.1 = state_ r
      /\ awaitingDbRead res.1 = awaitingDbRead r
      /\ (assembleTimers r <= assembleTimers res.1)%nat
      /\ (chunks_ <> [] -> (1 <= assembleTimers res.1)%nat)
      /\ List.filter isDownload res.2 = [].
Proof.
  induction chunks_ as [|c rest IH];
    intros seq offset r C recs Hdb Hperm Hrecs Hseq Hn Hoff Hsize res.
  - exists C. subst res. cbn. rewrite app_nil_r.
    repeat split; try done; [by left|intros [?|?]; [done|lia]].
  - subst res. cbn [arrival].
    change (?f :: ?p :: arrival ?a ?b rest) with ([f; p] ++ arrival a b rest).
    rewrite run_app. cbn [fst snd].
    cbn [length concat] in Hn, Hsize. rewrite length_app in Hsize.
    set (isLast := match rest with [] => true | _ => false end).
    destruct (frame_put seq offset c isLast r C) as
      (Hdb2 & Hch2 & Hm2 & Ht2 & Hs2 & Ha2 & Htm2 & Hlast2 & Hout2);
      [lia..|done|].
    set (r2 := (run [EFrame (sonicFrame seq c isLast offset false);
                     EPutDone true] r).1) in *.
    set (rec := {| rId := recordId (transferId r) seq;
                   rTransferId := transferId r; rSeq := seq; rData := c;
                   rOffset := offset; rSize := Z.of_nat (length c);
                   rIsLast := isLast |}) in *.
    assert (C !! recordId (transferId r) seq = None) as Hfresh.
    { apply eq_None_not_Some. intros [x Hx].
      apply elem_of_map_to_list in Hx. rewrite Hperm in Hx.
      apply list_elem_of_fmap in Hx as (rec' & [= Hid ->] & Hin).
      rewrite Forall_forall in Hrecs. destruct (Hrecs _ Hin) as [Hid' ?].
      rewrite Hid' in Hid. apply recordId_inj in Hid. lia. }
    destruct (IH (seq + 1) (offset + Z.of_nat (length c)) r2
                (<[recordId (transferId r) seq := rec]> C) (recs ++ [rec]))
      as (C' & Hdb' & Hperm' & Hch' & Hm' & Ht' & Hs' & Ha' & Htm' & Hne' & Hout');
      [done| | |lia..|].
    { rewrite map_to_list_insert by done.
      rewrite fmap_app, Hperm. cbn. by rewrite Permutation_cons_append. }
    { rewrite Ht2. apply Forall_app. split.
      - eapply Forall_impl; [exact Hrecs|]. cbn. intros x [? ?].
        split; [done|lia].
      - repeat constructor. cbn. lia. }
    exists C'. split; [done|]. split.
    { rewrite Hperm', Ht2. cbn [recordsFrom]. by rewrite <- app_assoc. }
    split.
    { intros s. rewrite Hch', Hch2. cbn [length].
      destruct (decide (s = seq)) as [->|Hne].
      - rewrite lookup_insert_eq. split; [intros _; right; lia|].
        intros _. left. by eexists.
      - rewrite lookup_insert_ne by done. split.
        + intros [?|?]; [by left|right; lia].
        + intros [?|?]; [by left|right; lia]. }
    repeat split; try congruence; try lia.
    + intros _. destruct rest as [|c' rest'].
      * specialize (Hlast2 eq_refl). lia.
      * by apply Hne'.
    + by rewrite List.filter_app, Hout2, Hout'.
Qed.

(** The records of one arrival, read back and sorted by [seq]. *)
Lemma sorted_records (tid : string) (chunks_ : list (list Z))
    (C : gmap string record) (r : t (key := key)) :
  db r = Some {| committed := C; requested := [] |} ->
  transferId r = Some tid ->
  map_to_list C
    ≡ₚ (fun rec => (rId rec, rec)) <$> recordsFrom (Some tid) 0 0 chunks_ ->
  getAllChunksFromDB r ≡ₚ recordsFrom (Some tid) 0 0 chunks_
  /\ merge_sort bySeq (getAllChunksFromDB r)
     = recordsFrom (Some tid) 0 0 chunks_.
Proof.
  intros Hdb Htid Hperm.
  destruct (recordsFrom_facts (Some tid) chunks_ 0 0) as (_ & Hall & Hsorted).
  set (recs := recordsFrom (Some tid) 0 0 chunks_) in *.
  assert (map snd (map_to_list C) ≡ₚ recs) as Hsnd.
  { change (map snd (map_to_list C)) with ((map_to_list C).*2).
    rewrite Hperm. clear. induction recs as [|x l IH]; [done|].
    cbn. by rewrite IH. }
  assert (getAllChunksFromDB r ≡ₚ recs) as Hget.
  { unfold getAllChunksFromDB. rewrite Hdb, Htid. cbn [committed].
    rewrite filter_all; [done|].
    rewrite Hsnd. eapply Forall_impl; [exact Hall|].
    cbn. intros x (_ & -> & _). by apply bool_decide_eq_true. }
  split; [done|].
  apply (StronglySorted_unique_strong bySeq).
  - intros x1 x2 Hx1 Hx2 H12 H21. unfold bySeq in *.
    rewrite merge_sort_Permutation, Hget in Hx1.
    assert (rSeq x1 = rSeq x2) as Heq by lia.
    clear -Hsorted Hx1 Hx2 Heq. induction Hsorted as [|y l _ IH Hy].
    + by apply elem_of_nil in Hx1.
    + rewrite Forall_forall in Hy.
      apply elem_of_cons in Hx1 as [->|Hx1], Hx2 as [->|Hx2]; [done| | |by apply IH].
      * apply Hy in Hx2. lia.
      * apply Hy in Hx1. lia.
  - apply (@StronglySorted_merge_sort _ bySeq _ bySeq_trans bySeq_total).
  - clear -Hsorted. induction Hsorted as [|y l _ IH Hy]; constructor; [done|].
    eapply Forall_impl; [exact Hy|]. unfold bySeq. cbn. intros. lia.
  - by rewrite merge_sort_Permutation.
Qed.

(** A file that arrives in order, each [put] completing, is delivered
    byte for byte: after the metadata, the frames, the assembly timer and
    the read of the store, exactly one [Download] has been issued, with the
    announced file name and the concatenation of the chunks, and the
    receiver is ["completed"]. *)
Theorem receive_in_order_delivers_file (c : string) (control data : bool)
    (m : metadata) (chunks_ : list (list Z)) :
  chunks_ <> [] ->
  Z.of_nat (length chunks_) <= 4294967296 ->
  Z.of_nat (length (concat chunks_)) < 4294967296 ->
  let res := run (EMetadata m :: arrival 0 0 chunks_
                  ++ [EAssembleTimer; EReadDone true])
                 (freshReceiver c control data) in
  List.filter isDownload res.2 = [Download (fileName m) (concat chunks_)]
  /\ state_ res.1 = Completed.
Proof.
  intros Hne Hn Hsize res. subst res.
  set (tid := makeTransferId c (fileName m) (fileSize m)).
  rewrite run_cons. cbn [Receiver.step].
  assert (handleMetadata m (freshReceiver c control data)
          = (set_received ∅ 0 (set_metadata m tid (freshReceiver c control data)),
             sendControl (freshReceiver (key := key) c control data)
               START_TRANSFER)) as ->.
  { unfold handleMetadata, getAllChunksFromDB, freshReceiver. rsimpl.
    cbn [create code]. by rewrite map_to_list_empty. }
  cbn [fst snd].
  set (r1 := set_received ∅ 0 (set_metadata m tid (freshReceiver c control data))).
  rewrite run_app.
  destruct (arrival_run chunks_ 0 0 r1 ∅ [])
    as (C & Hdb & Hperm & Hch & Hm & Ht & Hs & Ha & _ & Htm & Hout);
    [done|by rewrite map_to_list_empty|constructor|lia..|].
  specialize (Htm Hne).
  set (r2 := (run (arrival 0 0 chunks_) r1).1) in *.
  cbn [app] in Hperm. change (transferId r1) with (Some tid) in *.
  change (metadata_ r1) with (Some m) in Hm.
  change (state_ r1) with Idle in Hs.
  change (awaitingDbRead r1) with 0%nat in Ha.
  (* the timer fires: nothing is missing *)
  assert (missingChunks (chunks r2) = []) as Hmiss.
  { apply elem_of_nil_inv. intros s Hin.
    apply missingChunks_iff in Hin as (? & Hnone & k & ? & Hk).
    - apply Hch in Hk as [Hk|?]; [by destruct Hk|].
      assert (is_Some (chunks r2 !! s)) as [? ?] by (apply Hch; right; lia).
      congruence.
    - intros k Hk. apply Hch in Hk as [Hk|?]; [by destruct Hk|lia]. }
  rewrite run_cons. cbn [Receiver.step].
  destruct (assembleTimers r2) as [|n] eqn:Htimers; [lia|].
  assert (assembleFile (set_assembleTimers n r2)
          = (set_awaiting 1
               (set_state Assembling (set_assembleTimers n r2)), [])) as ->.
  { unfold assembleFile. rsimpl. rewrite Hs. rsimpl. by rewrite Hmiss, Ha. }
  cbn [fst snd].
  rewrite run_cons. cbn [Receiver.step Receiver.run]. rsimpl.
  unfold assembleResume. cbn [negb Nat.pred]. rsimpl. cbn [Nat.pred].
  destruct (sorted_records tid chunks_ C
              (set_awaiting 0
                 (set_awaiting 1
                    (set_state Assembling (set_assembleTimers n r2)))))
    as [_ ->]; [done..|].
  destruct (recordsFrom_facts (Some tid) chunks_ 0 0) as (Hdata & Hall & _).
  rewrite combineChunks_sized, Hdata, Hm
    by (eapply Forall_impl; [exact Hall|]; by intros x (? & _)).
  cbn [fst snd]. unfold sendControl.
  rewrite !List.filter_app, Hout.
  split; [by destruct control, data|].
  unfold cleanup. rsimpl. by rewrite Hdb, Ht.
Qed.

Lemma chunkMap_keys (stored : list record) (acc : gmap Z chunkInfo) (s : Z) :
  is_Some (fold_left
             (fun acc c =>
                <[rSeq c := {| cOffset := rOffset c; cSize := rSize c;
                               cIsLast := rIsLast c |}]> acc)
             stored acc !! s)
  <-> is_Some (acc !! s) \/ exists c, c ∈ stored /\ rSeq c = s.
Proof.
  revert acc. induction stored as [|c l IH]; intros acc; cbn [fold_left].
  - split; [by left|]. intros [?|(c & Hc & _)]; [done|].
    by apply elem_of_nil in Hc.
  - rewrite IH. destruct (decide (rSeq c = s)) as [<-|Hne].
    + rewrite lookup_insert_eq. split; [|intros _; left; by eexists].
      intros _. right. exists c. split; [by left|done].
    + rewrite lookup_insert_ne by done. split.
      * intros [?|(c' & ? & ?)]; [by left|right].
        exists c'. split; [by right|done].
      * intros [?|(c' & [->|?]%elem_of_cons & ?)]; [by left|done|right].
        by exists c'.
Qed.

Lemma recordsFrom_seqs (tid : option string) (chunks_ : list (list Z))
    (seq offset : Z) :
  rSeq <$> recordsFrom tid seq offset chunks_
  = seqZ seq (Z.of_nat (length chunks_)).
Proof.
  revert seq offset. induction chunks_ as [|c rest IH]; intros seq offset.
  - done.
  - cbn [recordsFrom fmap list_fmap rSeq length].
    rewrite IH, (seqZ_cons seq) by lia. f_equal. f_equal; lia.
Qed.

(** Resume: a new receiver that finds the chunks of an earlier arrival
    in the store answers the metadata with RESUME_FROM, giving as
    [byteOffset] the total number of stored bytes and as [receivedChunks]
    the stored sequence numbers (in the order of the store), and rebuilds
    [receivedBytes] and [chunks] from them. *)
Theorem resume_reports_persisted_bytes (c : string) (data : bool)
    (m : metadata) (chunks_ : list (list Z)) :
  Z.of_nat (length chunks_) <= 4294967296 ->
  0 < Z.of_nat (length (concat chunks_)) < 4294967296 ->
  let first := run (EMetadata m :: arrival 0 0 chunks_)
                   (freshReceiver c false false) in
  let again := set_channels true data (set_db (db first.1) (create c)) in
  exists seqs,
    seqs ≡ₚ seqZ 0 (Z.of_nat (length chunks_))
    /\ (step (EMetadata m) again).2
       = [Send OnControl
            (RESUME_FROM (Z.of_nat (length (concat chunks_))) seqs)]
    /\ receivedBytes (step (EMetadata m) again).1
       = Z.of_nat (length (concat chunks_))
    /\ forall s, is_Some (chunks (step (EMetadata m) again).1 !! s)
                 <-> 0 <= s < Z.of_nat (length chunks_).
Proof.
  intros Hn Hsize first again.
  set (tid := makeTransferId c (fileName m) (fileSize m)).
  assert (exists C, db first.1 = Some {| committed := C; requested := [] |}
                    /\ map_to_list C
                       ≡ₚ (fun rec => (rId rec, rec))
                          <$> recordsFrom (Some tid) 0 0 chunks_)
    as (C & Hdb & Hperm).
  { subst first. rewrite run_cons. cbn [Receiver.step].
    assert (handleMetadata m (freshReceiver c false false)
            = (set_received ∅ 0
                 (set_metadata m tid (freshReceiver c false false)),
               sendControl (freshReceiver (key := key) c false false)
                 START_TRANSFER)) as ->.
    { unfold handleMetadata, getAllChunksFromDB, freshReceiver. rsimpl.
      cbn [create code]. by rewrite map_to_list_empty. }
    cbn [fst snd].
    destruct (arrival_run chunks_ 0 0
                (set_received ∅ 0
                   (set_metadata m tid (freshReceiver c false false))) ∅ [])
      as (C & Hdb & Hperm & _);
      [done|by rewrite map_to_list_empty|constructor|lia..|].
    by exists C. }
  destruct (recordsFrom_facts (Some tid) chunks_ 0 0) as (Hdata & Hall & _).
  set (recs := recordsFrom (Some tid) 0 0 chunks_) in *.
  set (r := set_metadata m tid again).
  destruct (sorted_records tid chunks_ C r) as [Hget _]; [done..|].
  set (stored := getAllChunksFromDB r) in *.
  assert (Forall (fun c => rSize c = Z.of_nat (length (rData c))) stored)
    as Hsizes.
  { rewrite Hget. eapply Forall_impl; [exact Hall|]. by intros x (? & _). }
  assert (fold_left (fun sum c => sum + rSize c) stored 0
          = Z.of_nat (length (concat chunks_))) as Htotal.
  { rewrite totalSize_fold by done. rewrite Z.add_0_l. f_equal.
    rewrite <- Hdata. apply Permutation_length. by rewrite Hget. }
  exists (map rSeq stored).
  cbn [Receiver.step]. unfold handleMetadata.
  change (set_metadata m (makeTransferId (code again) (fileName m) (fileSize m))
            again) with r.
  fold stored. rewrite Htotal.
  destruct stored as [|x stored'] eqn:Hst.
  { cbn in Htotal. lia. }
  destruct (Z.ltb_spec 0 (Z.of_nat (length (concat chunks_)))); [|lia].
  rewrite <- Hst. cbn [fst snd]. rsimpl. split.
  { change (map rSeq stored) with (rSeq <$> stored).
    subst stored. rewrite Hst, Hget. subst recs.
    by rewrite recordsFrom_seqs. }
  split; [done|]. split; [done|].
  intros s. rewrite chunkMap_keys, lookup_empty. split.
  - intros [[? ?]|(c' & Hc' & <-)]; [done|].
    subst stored. rewrite Hst, Hget in Hc'.
    rewrite Forall_forall in Hall. destruct (Hall _ Hc') as (_&_&_&?). lia.
  - intros Hs. right.
    assert (s ∈ rSeq <$> recs) as Hin
      by (subst recs; rewrite recordsFrom_seqs, elem_of_seqZ; lia).
    apply list_elem_of_fmap in Hin as (c' & -> & Hc').
    exists c'. split; [|done]. subst stored. by rewrite Hst, Hget.
Qed.

End ReceiverMore.

Lemma receiver_accepts_frame_witness :
  let r' := (Receiver.handleBinaryChunk noDecrypt false frameA
               (demoReceiver 8)).1 in
  Receiver.chunks r'
  = <[0 := {| Receiver.cOffset := 0; Receiver.cSize := 4;
              Receiver.cIsLast := false |}]> (Receiver.chunks (demoReceiver 8))
  /\ Receiver.receivedBytes r' = 4.
Proof.
  destruct (receiver_accepts_frame noDecrypt false 0 0 [1; 2; 3; 4] false false
              (demoReceiver 8) ltac:(lia) ltac:(lia) ltac:(cbn; lia) eq_refl)
    as (H1 & H2 & _).
  split; [exact H1|exact H2].
Defined.

Lemma checksum_blind_after_100_witness :
  (Receiver.handleBinaryChunk noDecrypt false
     (take 16 (sonicFrame 0 (replicate 101 7) true 0 false)
      ++ replicate 100 7 ++ [9])
     (demoReceiver 101)).1
  = (Receiver.acceptChunk
       {| Receiver.hSeq := 0; Receiver.hSize := 101; Receiver.hOffset := 0;
          Receiver.hFlags := 1; Receiver.hReserved := 0;
          Receiver.hChecksum := 700 |}
       true (replicate 100 7 ++ [9]) (demoReceiver 101)).1.
Proof.
  rewrite (checksum_blind_after_100 noDecrypt false 0 0 (replicate 101 7)
             (replicate 100 7 ++ [9]) true false (demoReceiver 101)
             ltac:(lia) ltac:(lia) ltac:(cbn; lia) eq_refl eq_refl eq_refl).
  reflexivity.
Defined.

Lemma missingChunks_spec_witness :
  (2 ∈ Receiver.missingChunks
         (<[3 := {| Receiver.cOffset := 0; Receiver.cSize := 1;
                    Receiver.cIsLast := true |}]> ∅))
  <-> (0 <= 2
       /\ (<[3 := {| Receiver.cOffset := 0; Receiver.cSize := 1;
                     Receiver.cIsLast := true |}]> ∅ : gmap Z _) !! 2 = None
       /\ exists k, 2 < k
            /\ is_Some ((<[3 := {| Receiver.cOffset := 0; Receiver.cSize := 1;
                                   Receiver.cIsLast := true |}]> ∅
                         : gmap Z _) !! k)).
Proof.
  apply missingChunks_spec. intros k [x Hk].
  apply lookup_insert_Some in Hk as [[<- _]|[_ Hk]]; [lia|].
  by rewrite lookup_empty in Hk.
Defined.

Lemma combineChunks_concat_witness :
  Receiver.combineChunks (recordsFrom (Some "t") 0 0 [[1; 2]; [3]])
  = Some [1; 2; 3].
Proof.
  apply (combineChunks_concat (recordsFrom (Some "t") 0 0 [[1; 2]; [3]])).
  repeat constructor.
Defined.

Lemma receive_in_order_delivers_file_witness :
  let m := {| Receiver.fileName := "f"; Receiver.fileSize := 3;
              Receiver.mimeType := "text/plain";
              Receiver.encrypted := false |} in
  let res := Receiver.run noDecrypt false
               (Receiver.EMetadata m :: arrival 0 0 [[1; 2]; [3]]
                ++ [Receiver.EAssembleTimer; Receiver.EReadDone true])
               (freshReceiver "ABC123" true true) in
  List.filter isDownload res.2 = [Receiver.Download "f" [1; 2; 3]]
  /\ Receiver.state_ res.1 = Receiver.Completed.
Proof.
  intros m.
  apply (receive_in_order_delivers_file noDecrypt false "ABC123" true true m
           [[1; 2]; [3]]); [discriminate|cbn; lia|cbn; lia].
Defined.

Lemma resume_reports_persisted_bytes_witness :
  let m := {| Receiver.fileName := "f"; Receiver.fileSize := 9;
              Receiver.mimeType := "text/plain";
              Receiver.encrypted := false |} in
  let first := Receiver.run noDecrypt false
                 (Receiver.EMetadata m :: arrival 0 0 [[1; 2]; [3]])
                 (freshReceiver "ABC123" false false) in
  let again := Receiver.set_channels true false
                 (Receiver.set_db (Receiver.db first.1)
                    (Receiver.create "ABC123")) in
  exists seqs,
    seqs ≡ₚ [0; 1]
    /\ (Receiver.step noDecrypt false (Receiver.EMetadata m) again).2
       = [Receiver.Send Receiver.OnControl (Receiver.RESUME_FROM 3 seqs)].
Proof.
  intros m first again.
  destruct (resume_reports_persisted_bytes noDecrypt false "ABC123" false m
              [[1; 2]; [3]] ltac:(cbn; lia) ltac:(cbn; lia))
    as (seqs & H1 & H2 & _).
  exists seqs. split; [exact H1|exact H2].
Defined.

(** ** The reorder buffer of the earlier receiver *)

Section LegacyMore.
Import Crypto Legacy.
Context {key : Type}.
Variable gcm_decrypt : key -> list Z -> list Z -> option (list Z).
Variable IS_SECURE : bool.

Abbreviation onData := (Legacy.onData gcm_decrypt IS_SECURE).

Implicit Types (st : Legacy.state (key := key)).

Ltac lsimpl :=
  cbn [transferState_ expectedSeq reorderBuffer db storedExpectedSeq
       isVideoStream dataChannelOpen sharedKey_ set_buffer consume
       saveChunkToDB fst snd] in *.


Variable plain : dataPacket -> list Z.



End LegacyMore.


(** ** The sliding window of the first script *)

Section MonoMore.
Import Legacy.Mono.
Context {key : Type}.
Variable gcm_encrypt : key -> list Z -> list Z -> list Z.

Implicit Types (st : Legacy.Mono.state (key := key)).

Lemma window_size (m : gmap Z (list Z)) (a b : Z) :
  (forall k, is_Some (m !! k) -> a < k < b) ->
  b <= a + WINDOW_SIZE + 1 ->
  (size m <= 8)%nat.
Proof.
  intros Hkeys Hb.
  assert (dom m ⊆ (list_to_set (seqZ (a + 1) WINDOW_SIZE) : gset Z)) as Hsub.
  { intros k Hk%elem_of_dom%Hkeys. apply elem_of_list_to_set, elem_of_seqZ.
    unfold WINDOW_SIZE in *. lia. }
  apply subseteq_size in Hsub.
  rewrite size_dom, size_list_to_set, length_seqZ in Hsub by apply NoDup_seqZ.
  exact Hsub.
Qed.

Lemma sendWindow_inv (fuel : nat) (file : list Z) (rnd : Z -> list Z) st :
  windowInv st ->
  let res := sendWindow gcm_encrypt fuel file rnd st in
  windowInv res.1
  /\ lastAck res.1 = lastAck st
  /\ Forall (fun m => nextSeq st <= mSeq m <= lastAck st + WINDOW_SIZE
                      /\ mSeq m < totalChunks file) res.2.
Proof.
  revert st. induction fuel as [|fuel IH]; intros st Hinv; [by cbn|].
  cbv zeta. rewrite sendWindow_turn.
  destruct (Z.leb_spec (nextSeq st) (lastAck st + WINDOW_SIZE)) as [Hw|Hw];
    [|by cbn].
  destruct (Z.ltb_spec (nextSeq st) (totalChunks file)) as [Ht|Ht]; [|by cbn].
  cbn [andb]. destruct (sharedKey st) as [k|]; [|by cbn].
  cbv zeta. cbn [fst snd].
  set (chunk := DataView.slice _ _ _).
  destruct (IH (sent chunk st)) as (I1 & I2 & I3).
  { destruct Hinv as (Hk & Hlt & Hle). unfold windowInv. cbn. split; [|lia].
    intros j Hj. destruct (decide (j = nextSeq st)) as [->|Hne]; [lia|].
    rewrite lookup_insert_ne in Hj by done. apply Hk in Hj. lia. }
  split; [done|]. split; [done|]. constructor; [cbn; lia|].
  eapply Forall_impl; [exact I3|]. cbn. intros m. lia.
Qed.

(** The sliding window of the first script: while ACKs name a chunk that
    was sent and do not go backwards, at most [WINDOW_SIZE] chunks are in
    flight, [trySend] and [onAck] keep it so, and they only send sequence
    numbers in the [WINDOW_SIZE] numbers after the last acknowledged
    one. *)
Theorem mono_window_discipline (rnd : Z -> list Z) st :
  windowInv st ->
  (size (inflight st) <= 8)%nat
  /\ windowInv (trySend gcm_encrypt rnd st).1
  /\ Forall (fun m => lastAck st < mSeq m <= lastAck st + WINDOW_SIZE)
            (trySend gcm_encrypt rnd st).2
  /\ forall a, lastAck st <= a < nextSeq st ->
       windowInv (onAck gcm_encrypt a rnd st).1
       /\ Forall (fun m => a < mSeq m <= a + WINDOW_SIZE)
                 (onAck gcm_encrypt a rnd st).2.
Proof.
  intros Hinv.
  assert (forall s : Legacy.Mono.state (key := key), windowInv s ->
            windowInv (trySend gcm_encrypt rnd s).1
            /\ Forall (fun m => lastAck s < mSeq m <= lastAck s + WINDOW_SIZE)
                      (trySend gcm_encrypt rnd s).2) as Htry.
  { intros s Hs. unfold trySend.
    destruct (currentFile s) as [file|]; [|by cbn].
    destruct (_ || _); [by cbn|].
    destruct (sendWindow_inv
                (Z.to_nat (lastAck s + WINDOW_SIZE + 1 - nextSeq s)) file rnd
                (set_sending true s) Hs) as (H1 & H2 & H3).
    split; [done|]. eapply Forall_impl; [exact H3|]. cbn.
    destruct Hs as (_ & ? & _). intros m. lia. }
  split; [|split; [by apply Htry|split; [by apply Htry|]]].
  { destruct Hinv as (Hk & _ & Hle). by apply (window_size _ _ _ Hk). }
  intros a Ha. unfold onAck. apply Htry.
  destruct Hinv as (Hk & Hlt & Hle). unfold windowInv. cbn.
  split; [|unfold WINDOW_SIZE in *; lia].
  intros j [x Hj]. apply map_lookup_filter_Some in Hj as [Hj Hgt]. cbn in Hgt.
  specialize (Hk j ltac:(by eexists)). lia.
Qed.

End MonoMore.

Lemma mono_window_discipline_witness :
  let st := (Legacy.Mono.trySend showIv (fun _ => [])
               (monoStart (replicate 5 7))).1 in
  (size (Legacy.Mono.inflight st) <= 8)%nat
  /\ windowInv (Legacy.Mono.onAck showIv 0 (fun _ => []) st).1.
Proof.
  intros st.
  assert (windowInv (monoStart (replicate 5 7))) as H0.
  { unfold windowInv, monoStart. cbn.
    split; [|unfold Legacy.Mono.WINDOW_SIZE; lia].
    intros k [x Hk]. by rewrite lookup_empty in Hk. }
  destruct (mono_window_discipline showIv (fun _ => []) _ H0)
    as (_ & H1 & _).
  destruct (mono_window_discipline showIv (fun _ => []) _ H1)
    as (Hsize & _ & _ & Hack).
  split; [exact Hsize|]. apply Hack. vm_compute. split; congruence.
Defined.

(** ** crypto.js and the parser's edge cases *)

Section CryptoMore.
Import Crypto.
Context {key : Type}.
Variable gcm_encrypt : key -> list Z -> list Z -> list Z.
Variable gcm_decrypt : key -> list Z -> list Z -> option (list Z).
Variable IS_SECURE : bool.

(** [decryptChunk] undoes [encryptChunk] when it is given the IV that
    [encryptChunk] returned (for an AES-GCM that decrypts what it encrypted
    under the same key and IV); outside a secure context, or with the key
    ["INSECURE"], both are the identity and the IV is [null]. *)
Theorem decryptChunk_encryptChunk (sk : sharedKey key) (rnd buffer : list Z)
    (e : encrypted) :
  (forall k iv plain, gcm_decrypt k iv (gcm_encrypt k iv plain) = Some plain) ->
  encryptChunk gcm_encrypt IS_SECURE sk rnd buffer = Some e ->
  decryptChunk gcm_decrypt IS_SECURE sk (data e) (iv e) = Some buffer
  /\ (IS_SECURE = false \/ sk = KeyInsecure ->
      iv e = None /\ data e = buffer)
  /\ (IS_SECURE = true -> forall k, sk = KeyDerived k ->
      iv e = Some rnd /\ data e = gcm_encrypt k rnd buffer).
Proof.
  intros Hgcm. unfold encryptChunk, decryptChunk.
  destruct IS_SECURE; cbn [negb].
  - destruct sk as [| |k]; intros [= <-]; cbn [data iv].
    + split; [done|]. split; [done|]. by intros _ k [=].
    + split; [by apply Hgcm|]. split; [by intros [[=]|[=]]|].
      by intros _ k' [= <-].
  - intros [= <-]. cbn. split; [done|]. split; [done|]. by intros [=].
Qed.

End CryptoMore.

Lemma stripIv_showIv (k : unit) (iv plain : list Z) :
  stripIv k iv (showIv k iv plain) = Some plain.
Proof.
  unfold stripIv, showIv.
  rewrite take_app_length, bool_decide_eq_true_2 by done.
  by rewrite drop_app_length.
Qed.

Lemma decryptChunk_encryptChunk_witness :
  Crypto.decryptChunk stripIv true (Crypto.KeyDerived tt)
    ([9; 8; 7] ++ [1; 2]) (Some [9; 8; 7])
  = Some [1; 2].
Proof.
  apply (decryptChunk_encryptChunk showIv stripIv true (Crypto.KeyDerived tt)
           [9; 8; 7] [1; 2]
           {| Crypto.iv := Some [9; 8; 7];
              Crypto.data := [9; 8; 7] ++ [1; 2] |}
           stripIv_showIv eq_refl).
Defined.

Section ParserEdges.
Import DataView Packet.

Lemma getUint32_None (buf : list Z) (off : nat) :
  (length buf < off + 4)%nat -> getUint32 buf off = None.
Proof.
  intros Hlen. unfold getUint32.
  destruct (buf !! off) as [a|] eqn:Ha; [|done].
  destruct (buf !! (off + 1)%nat) as [b|] eqn:Hb; [|done].
  destruct (buf !! (off + 2)%nat) as [c|] eqn:Hc; [|done].
  destruct (buf !! (off + 3)%nat) as [d|] eqn:Hd; [|done].
  apply lookup_lt_Some in Hd. lia.
Qed.

Lemma getUint32_Some (buf : list Z) (off : nat) :
  (off + 4 <= length buf)%nat -> is_Some (getUint32 buf off).
Proof.
  intros Hlen. unfold getUint32.
  destruct (lookup_lt_is_Some_2 buf off ltac:(lia)) as [a ->].
  destruct (lookup_lt_is_Some_2 buf (off + 1) ltac:(lia)) as [b ->].
  destruct (lookup_lt_is_Some_2 buf (off + 2) ltac:(lia)) as [c ->].
  destruct (lookup_lt_is_Some_2 buf (off + 3) ltac:(lia)) as [d ->].
  by eexists.
Qed.

(** [parsePacket] throws on a buffer shorter than five bytes; on a
    longer one whose type byte is not DATA, VIDEO_DATA or SACK it always
    returns: an ACK, a FEC record with everything after the fifth byte, or
    the bare type and sequence number. *)
Theorem parsePacket_short_or_plain (buffer : list Z) :
  ((length buffer < 5)%nat -> parsePacket buffer = None)
  /\ ((5 <= length buffer)%nat ->
      forall type, buffer !! 0%nat = Some type ->
        type <> DATA -> type <> VIDEO_DATA -> type <> SACK ->
        exists seq, getUint32 buffer 1 = Some seq
          /\ parsePacket buffer
             = Some (if type =? ACK then PAck seq
                     else if type =? FEC
                          then PFec seq (drop 5 buffer)
                          else POther type seq)).
Proof.
  split.
  - intros Hlen. unfold parsePacket, getUint8.
    destruct (buffer !! 0%nat); [|done]. cbn [mbind option_bind].
    rewrite (getUint32_None buffer 1) by lia. reflexivity.
  - intros Hlen type Htype Hd Hv Hs. unfold parsePacket, getUint8.
    rewrite Htype. cbn [mbind option_bind].
    destruct (getUint32_Some buffer 1 ltac:(lia)) as [seq Hseq].
    rewrite Hseq. cbn [mbind option_bind]. exists seq. split; [done|].
    destruct (Z.eqb_spec type ACK); [done|].
    destruct (Z.eqb_spec type DATA); [done|].
    destruct (Z.eqb_spec type VIDEO_DATA); [done|].
    destruct (Z.eqb_spec type SACK); [done|].
    destruct (Z.eqb_spec type FEC); [|done].
    do 2 f_equal. unfold slice. apply take_ge. rewrite length_drop. lia.
Qed.

End ParserEdges.

Lemma parsePacket_short_or_plain_witness :
  Packet.parsePacket [2; 0; 0; 1; 0] = Some (Packet.PAck 256)
  /\ Packet.parsePacket [2; 0; 0; 1] = None.
Proof.
  destruct (parsePacket_short_or_plain [2; 0; 0; 1; 0]) as [_ H].
  destruct (H ltac:(cbn; lia) 2 eq_refl ltac:(discriminate)
              ltac:(discriminate) ltac:(discriminate)) as (seq & Hseq & ->).
  injection Hseq as <-. split; [reflexivity|].
  apply (parsePacket_short_or_plain [2; 0; 0; 1]). cbn. lia.
Defined.

(** ** From [sendFile] to the first turn (protocol.js) *)

Section StartTransfer.
Import Crypto Sender.
Context {key : Type}.
Variable gcm_encrypt : key -> list Z -> list Z -> list Z.
Variable IS_SECURE : bool.

(** A transfer started from [sendFile]: once READY, [sendFile(file)] and
    the START_TRANSFER that answers its METADATA reach the send loop with
    the counters reset. As soon as one turn finds an open channel below
    [MAX_BUFFER], the run is over: no frame was handed to [send],
    [fileOffset], [nextSeq] and [totalBytesTransferred] are 0, and
    [isSending] is still set. From then on nothing moves the sender:
    whatever the channels do later changes nothing, and a further
    START_TRANSFER or RESUME_FROM finds [isSending] set and returns
    without reading the file. *)
Theorem start_transfer_wedges_sender (file : list Z)
    (script : list observation) (st : state (key := key)) :
  transferState_ st = READY ->
  isSending st = false ->
  file <> [] ->
  (exists o idx c, o ∈ script /\ (idx < length (pool st))%nat
                   /\ oChannels o !! idx = Some c
                   /\ isOpen c = true /\ bufferedAmount c < MAX_BUFFER) ->
  exists st',
    (forall more,
        handleMessage gcm_encrypt IS_SECURE START_TRANSFER (script ++ more)
          (sendFile file st)
        = Some (st', [], []))
    /\ fileOffset st' = 0 /\ nextSeq st' = 0
    /\ totalBytesTransferred st' = 0
    /\ isTransferring st' = true /\ isSending st' = true
    /\ forall (msg : message) (later : list observation),
         msg = START_TRANSFER \/ (exists b, msg = RESUME_FROM b) ->
         exists st'',
           handleMessage gcm_encrypt IS_SECURE msg later st'
           = Some (st'', [], [])
           /\ fileOffset st'' = 0 /\ isSending st'' = true.
Proof.
  intros Hready Hidle Hfile Hobs.
  unfold sendFile. change (transferState_ (with_file file st))
    with (transferState_ st). rewrite Hready.
  set (s0 := resetTransfer (with_file file st)).
  set (s1 := with_flags true true s0).
  assert (fileOffset s1 < Z.of_nat (length file)) as Hlt.
  { change (fileOffset s1) with 0. destruct file; [done|cbn; lia]. }
  destruct (sendLoop_first_pick gcm_encrypt IS_SECURE (length (pool st))
              file script s1 Hlt Hobs) as [i Hi].
  assert (forall sc, handleMessage gcm_encrypt IS_SECURE START_TRANSFER sc s0
            = Some ((Sender.sendLoop gcm_encrypt IS_SECURE (length (pool st))
                       file sc s1).1,
                    [],
                    (Sender.sendLoop gcm_encrypt IS_SECURE (length (pool st))
                       file sc s1).2)) as Hstart.
  { intros sc. cbn [handleMessage]. unfold Sender.trySend.
    change (currentFile (with_flags true (isSending s0) s0)) with (Some file).
    change (isTransferring (with_flags true (isSending s0) s0)) with true.
    change (isSending (with_flags true (isSending s0) s0))
      with (isSending st).
    rewrite Hidle. cbn [negb orb].
    change (with_flags true true (with_flags true false s0)) with s1.
    change (dataChannels s1) with (dataChannels st).
    change (dataChannel s1) with (dataChannel st).
    change (List.filter isOpen _) with (pool st).
    destruct Hobs as (_ & idx & _ & _ & Hidx & _).
    destruct (length (pool st)) as [|n] eqn:Hn; [lia|].
    cbn [Nat.eqb andb].
    by destruct (Sender.sendLoop _ _ _ _ _ _). }
  exists (with_active i s1). split.
  { intros more. by rewrite Hstart, Hi. }
  do 5 (split; [done|]).
  intros msg later Hmsg.
  assert (forall s, isSending s = true -> currentFile s = Some file ->
            Sender.trySend gcm_encrypt IS_SECURE later s = (s, [])) as Hbusy.
  { intros s Hs Hf. unfold Sender.trySend. rewrite Hf, Hs.
    by rewrite orb_true_r. }
  destruct Hmsg as [->|[b ->]]; cbn [handleMessage].
  - rewrite Hbusy by done. by eexists.
  - rewrite Hbusy by done. by eexists.
Qed.

End StartTransfer.

Lemma start_transfer_wedges_sender_witness :
  exists st',
    Sender.handleMessage showIv false Sender.START_TRANSFER
      ([fullTurn; demoTurn []] ++ [demoTurn []])
      (Sender.sendFile [1; 2; 3] (readySender None))
    = Some (st', [], [])
    /\ Sender.fileOffset st' = 0 /\ Sender.isSending st' = true.
Proof.
  destruct (start_transfer_wedges_sender showIv false [1; 2; 3]
              [fullTurn; demoTurn []] (readySender None))
    as (st' & H1 & H2 & _ & _ & _ & H3 & _); [done|done|done| |].
  - exists (demoTurn []), 0%nat,
      {| Sender.isOpen := true; Sender.bufferedAmount := 0 |}.
    split; [apply elem_of_cons; right; by apply elem_of_cons; left|].
    repeat split; first [cbn; lia | done].
  - exists st'. by rewrite H1.
Defined.
